(** * LinkedIn recent IT jobs scraper: a shallow embedding of
    [job_scrap_data_1.py] and the properties of its classifiers, geocoding
    cache, pagination loop and handler.

    Text is modelled as [string] whose characters are code points below 256;
    [str.lower], [str.strip] and the [in] operator are written out for that
    range.  The network, the clock, the process environment and the two
    stores are fields of a [world] record that the functions read. *)

From Stdlib Require Import String Ascii List ZArith NArith Bool Lia Floats.
From stdpp Require Import gmap strings list.
Import ListNotations.

Local Open Scope string_scope.

(** ** Python text primitives *)

Module Text.

(** [str.lower] on one code point below 256: A-Z, and the Latin-1 capitals
    U+00C0..U+00DE except the multiplication sign U+00D7. *)
Definition lower_char (c : ascii) : ascii :=
  let n := N_of_ascii c in
  if ((65 <=? n) && (n <=? 90))%N
     || ((192 <=? n) && (n <=? 222) && negb (n =? 215))%N
  then ascii_of_N (n + 32) else c.

Fixpoint lower (s : string) : string :=
  match s with
  | "" => ""
  | String c s' => String (lower_char c) (lower s')
  end.

(** [s.startswith(w)] *)
Fixpoint starts_with (w s : string) : bool :=
  match w, s with
  | "", _ => true
  | String a w', String b s' => Ascii.eqb a b && starts_with w' s'
  | String _ _, "" => false
  end.

(** [w in s] for strings: a left-to-right scan for a position where [w]
    starts. *)
Fixpoint contains (w s : string) : bool :=
  starts_with w s
  || match s with
     | "" => false
     | String _ s' => contains w s'
     end.

(** Code points below 256 on which [str.isspace] holds; these are what
    [str.strip()] removes. *)
Definition is_space (c : ascii) : bool :=
  let n := N_of_ascii c in
  ((9 <=? n) && (n <=? 13) || (28 <=? n) && (n <=? 32)
   || (n =? 133) || (n =? 160))%N.

Fixpoint lstrip (s : string) : string :=
  match s with
  | "" => ""
  | String c s' => if is_space c then lstrip s' else s
  end.

Fixpoint rstrip (s : string) : string :=
  match s with
  | "" => ""
  | String c s' =>
      match rstrip s' with
      | "" => if is_space c then "" else String c ""
      | r => String c r
      end
  end.

Definition strip (s : string) : string := rstrip (lstrip s).

(** [s.split(sep)[0]] for a one-character separator: the text before the
    first separator, or all of [s] when there is none. *)
Fixpoint split_head (sep : ascii) (s : string) : string :=
  match s with
  | "" => ""
  | String c s' => if Ascii.eqb c sep then "" else String c (split_head sep s')
  end.

Definition newline : ascii := ascii_of_N 10.

(** The two pattern shapes [clean_location] hands to [re.sub]: a literal, and
    a literal followed by [$].  Without [re.MULTILINE], [$] holds at the end
    of the text and just before a line break that ends the text. *)
Inductive pattern :=
| Lit (lit : string)
| LitEnd (lit : string).

Definition pat_lit (p : pattern) : string :=
  match p with Lit l | LitEnd l => l end.

Definition at_dollar (s : string) : bool :=
  match s with
  | "" => true
  | String c "" => Ascii.eqb c newline
  | _ => false
  end.

Fixpoint match_end (w s : string) : bool :=
  match w, s with
  | "", _ => at_dollar s
  | String a w', String b s' => Ascii.eqb a b && match_end w' s'
  | String _ _, "" => false
  end.

(** Does the pattern match starting at the head of [s]? *)
Definition match_here (p : pattern) (s : string) : bool :=
  match p with
  | Lit l => starts_with l s
  | LitEnd l => match_end l s
  end.

(** [re.sub(p, '', s)] for a pattern with a non-empty literal: scan from the
    left, delete each match and resume after it ([skip] counts the characters
    of the current match still to be dropped). *)
Fixpoint re_sub_go (p : pattern) (skip : nat) (s : string) : string :=
  match s with
  | "" => ""
  | String c s' =>
      match skip with
      | S k => re_sub_go p k s'
      | O =>
          if match_here p s
          then re_sub_go p (String.length (pat_lit p) - 1) s'
          else String c (re_sub_go p 0 s')
      end
  end.

Definition re_sub (p : pattern) (s : string) : string := re_sub_go p 0 s.

End Text.

Import Text.

(** ** The text classifiers of [LinkedInRecentITJobsScraper] *)

Definition comma : ascii := ascii_of_N 44.

Definition clean_location (location : string) : string :=
  let location := re_sub (LitEnd ", England, United Kingdom") location in
  let location := re_sub (LitEnd ", United Kingdom") location in
  let location := re_sub (LitEnd ", UK") location in
  let location := re_sub (LitEnd " Area, United Kingdom") location in
  let location := re_sub (LitEnd " Area") location in
  let location := re_sub (Lit "Greater ") location in
  if contains "," location
  then strip (split_head comma location)
  else location.

(** [any(word in text for word in words)] *)
Definition any_in (words : list string) (text : string) : bool :=
  existsb (fun word => contains word text) words.

Definition senior_words : list string :=
  ["senior"; "lead"; "principal"; "manager"; "head of"].

Definition entry_words : list string :=
  ["junior"; "entry"; "graduate"; "trainee"].

Definition determine_experience_level (job_description : string) : string :=
  let text := lower job_description in
  if any_in senior_words text then "Senior Level"
  else if any_in entry_words text then "Entry Level"
  else "Mid Level".

Definition is_remote (job_description : string) : string :=
  let text := lower job_description in
  if any_in ["remote"; "work from home"; "wfh"; "hybrid"] text
  then if contains "hybrid" text then "Hybrid" else "Remote"
  else "On-site".

Definition is_recent_job (posted_date_text : string) : bool :=
  let text := lower posted_date_text in
  if contains "hours ago" text || contains "hour ago" text then true
  else if contains "day ago" text || contains "1 day ago" text then true
  else if contains "2 days ago" text then true
  else if contains "3 days ago" text then true
  else false.

(** ** Exceptions

    A Python call either returns a value or raises; [Raised] carries
    [str(e)].  Only [Exception] and its subclasses are modelled, which is
    what every [except Exception] clause of the source catches. *)

Inductive outcome (A : Type) : Type :=
| Ok (a : A)
| Raised (msg : string).
Arguments Ok {A} a.
Arguments Raised {A} msg.

Definition bind {A B} (m : outcome A) (k : A -> outcome B) : outcome B :=
  match m with
  | Ok a => k a
  | Raised msg => Raised msg
  end.

Notation "'let?' x := m 'in' k" := (bind m (fun x => k))
  (at level 10, x name, m at level 100, k at level 200).

(** ** Timestamps

    [datetime.now().strftime("%Y-%m-%d %H:%M:%S")] and
    [datetime.strptime(text, "%Y-%m-%d %H:%M:%S")].  A [datetime] holds the
    six fields the format shows. *)

Record datetime := {
  year : nat;
  month : nat;
  day : nat;
  hour : nat;
  minute : nat;
  second : nat
}.

Definition is_leap (y : nat) : bool :=
  (y mod 4 =? 0)%nat && (negb (y mod 100 =? 0)%nat || (y mod 400 =? 0)%nat).

Definition days_in_month (y m : nat) : nat :=
  match m with
  | 1 | 3 | 5 | 7 | 8 | 10 | 12 => 31
  | 4 | 6 | 9 | 11 => 30
  | 2 => if is_leap y then 29 else 28
  | _ => 0
  end.

(** The field values the [datetime] constructor accepts. *)
Definition valid_datetime (t : datetime) : bool :=
  (1 <=? year t)%nat && (year t <? 100 * 100)%nat
  && (1 <=? month t)%nat && (month t <=? 12)%nat
  && (1 <=? day t)%nat && (day t <=? days_in_month (year t) (month t))%nat
  && (hour t <? 24)%nat && (minute t <? 60)%nat && (second t <? 60)%nat.

(** What [datetime.now()] returns: a valid [datetime] whose year has four
    digits, which is where [%Y] prints exactly four characters. *)
Record clock_reading := {
  reading : datetime;
  reading_ok : valid_datetime reading && (1000 <=? year reading)%nat = true
}.

Definition digit_char (d : nat) : ascii := ascii_of_nat (48 + d).

Definition two_digits (n : nat) : string :=
  String (digit_char (n / 10)) (String (digit_char (n mod 10)) "").

Definition four_digits (n : nat) : string :=
  String (digit_char (n / 1000))
    (String (digit_char (n / 100 mod 10)) (two_digits (n mod 100))).

(** [t.strftime("%Y-%m-%d %H:%M:%S")], for a year of four digits. *)
Definition strftime (t : datetime) : string :=
  four_digits (year t) +:+ "-" +:+ two_digits (month t) +:+ "-"
  +:+ two_digits (day t) +:+ " " +:+ two_digits (hour t) +:+ ":"
  +:+ two_digits (minute t) +:+ ":" +:+ two_digits (second t).

(** The value of a decimal digit, [None] for any other character. *)
Definition digit_of (c : ascii) : option nat :=
  let n := nat_of_ascii c in
  if (48 <=? n)%nat && (n <=? 57)%nat then Some (n - 48) else None.

(** The digits a text starts with, and the text after them. *)
Fixpoint digits (s : string) : list nat * string :=
  match s with
  | "" => ([], "")
  | String c r =>
      match digit_of c with
      | Some d => let '(ds, rest) := digits r in (d :: ds, rest)
      | None => ([], s)
      end
  end.

(** What each directive accepts, as [_strptime] spells it:
    [%Y] is [\d\d\d\d]; [%m] is [1[0-2]|0[1-9]|[1-9]];
    [%d] is [3[0-1]|[1-2]\d|0[1-9]|[1-9]| [1-9]];
    [%H] is [2[0-3]|[0-1]\d|\d]; [%M] is [[0-5]\d|\d];
    [%S] is [6[0-1]|[0-5]\d|\d]. *)
Definition between (lo hi : nat) (ds : list nat) : option nat :=
  match ds with
  | [a] => if (lo <=? a)%nat then Some a else None
  | [a; b] =>
      let v := a * 10 + b in
      if (lo <=? v)%nat && (v <=? hi)%nat then Some v else None
  | _ => None
  end.

Definition year_field (ds : list nat) : option nat :=
  match ds with
  | [a; b; c; d] => Some (a * 1000 + b * 100 + c * 10 + d)
  | _ => None
  end.

Definition month_field : list nat -> option nat := between 1 12.
Definition day_field : list nat -> option nat := between 1 31.
Definition hour_field : list nat -> option nat := between 0 23.
Definition minute_field : list nat -> option nat := between 0 59.
Definition second_field : list nat -> option nat := between 0 61.

(** [%d] followed by the [\s+] that the blank of the format stands for: the
    day, which may be written as one blank and one digit, then at least one
    whitespace character; the result is the day and the text after the
    whitespace. *)
Definition day_and_blank (s : string) : option (nat * string) :=
  let '(ds, rest) :=
    match s with
    | String c r =>
        if Ascii.eqb c " " then
          match digits r with
          | ([a], rest) => ([a], rest)
          | _ => ([], s)
          end
        else digits s
    | "" => ([], "")
    end in
  match day_field ds, rest with
  | Some d, String c r => if is_space c then Some (d, lstrip r) else None
  | _, _ => None
  end.

(** The six fields of a text that the pattern of the format matches to its
    end. *)
Definition parse_fields (s : string) : option datetime :=
  let '(ys, s) := digits s in
  match year_field ys, s with
  | Some y, String c s =>
      if negb (Ascii.eqb c "-") then None else
      let '(ms, s) := digits s in
      match month_field ms, s with
      | Some m, String c s =>
          if negb (Ascii.eqb c "-") then None else
          match day_and_blank s with
          | Some (d, s) =>
              let '(hs, s) := digits s in
              match hour_field hs, s with
              | Some hh, String c s =>
                  if negb (Ascii.eqb c ":") then None else
                  let '(mins, s) := digits s in
                  match minute_field mins, s with
                  | Some mi, String c s =>
                      if negb (Ascii.eqb c ":") then None else
                      let '(ss, s) := digits s in
                      match second_field ss, s with
                      | Some sec, "" =>
                          Some {| year := y; month := m; day := d;
                                  hour := hh; minute := mi; second := sec |}
                      | _, _ => None
                      end
                  | _, _ => None
                  end
              | _, _ => None
              end
          | None => None
          end
      | _, _ => None
      end
  | _, _ => None
  end.

(** [datetime.strptime(s, "%Y-%m-%d %H:%M:%S")]: [ValueError] when the
    pattern does not match the whole text or the fields are not a date and
    time. *)
Definition strptime (s : string) : outcome datetime :=
  match parse_fields s with
  | Some t =>
      if valid_datetime t then Ok t
      else Raised "day is out of range for month"
  | None => Raised "time data does not match format '%Y-%m-%d %H:%M:%S'"
  end.

(** ** Pages, cards and records *)

(** What [requests.get(job_url)] and the parse of the detail page give: the
    request raises, or the page has a description block or none. *)
Inductive detail_outcome :=
| DetailRaises (msg : string)
| DetailPage (description : option string).

(** One [div.base-card] of a results page: for each element the scraper looks
    for, its text ([None] when [find] returns [None]); [link_href] is [None]
    when the anchor or its [href] is missing.  With the card come the two
    things the scraper gets from outside while it handles the card: the
    answer to the request for the detail page, and what [datetime.now()]
    reads when the record is built (line 198), a reading of its own for each
    card. *)
Record card := {
  posted_date_el : option string;
  title_el : option string;
  company_el : option string;
  location_el : option string;
  link_href : option string;
  detail : detail_outcome;
  scraped_at : clock_reading
}.

(** What [requests.get(url)] gives for a results page: it raises, or it
    answers with a status code and the cards found in the markup. *)
Inductive fetch_outcome :=
| FetchRaises (msg : string)
| FetchStatus (status_code : Z) (job_cards : list card).

(** One dict appended to [all_jobs], a field for each of its keys. *)
Record job := {
  Job_Title : string;
  Company : string;
  Location : string;
  Experience_Level : string;
  Work_Type : string;
  Category : string;
  Posted_Date : string;
  Job_URL : string;
  Date_Scraped : string
}.

(** ** The geocoding service *)

(** One element of the JSON array Nominatim answers with: [float(r['lat'])]
    and [float(r['lon'])], [None] when the key is missing or [float] rejects
    the text. *)
Record geo_result := {
  res_lat : option float;
  res_lon : option float
}.

(** [response.json()]: it raises, or it is a list of results (an empty list
    stands for every falsy body). *)
Inductive json_body :=
| BodyInvalid (msg : string)
| BodyResults (results : list geo_result).

Inductive lookup_outcome :=
| LookupRaises (msg : string)
| LookupResponse (status_code : Z) (body : json_body).

Abbreviation coords := (option float * option float)%type.

(** The scraper's mutable state that the writers touch: [self.geocoding_cache]
    and, as a ghost field, the locations for which a request went out to the
    geocoding service, oldest first. *)
Record geo_state := {
  geocoding_cache : gmap string coords;
  lookups : list string
}.

(** ** The world outside the process *)

Record world := {
  (** [os.environ] *)
  environ : gmap string string;
  (** [datetime.now()] as the handler reads and formats it for the summary
      (line 379), and as [save_to_s3] reads and formats it for the object
      key (line 251); each is read once in a run *)
  now_text : string;
  now_stamp : string;
  (** the search results for a term and a page index *)
  search_page : string -> nat -> fetch_outcome;
  (** the geocoding service: the answer to the [n]-th request of the run, for
      a query text *)
  geocode : nat -> string -> lookup_outcome;
  (** [s3.put_object] *)
  s3_put : outcome unit;
  (** [psycopg2.connect]; table and constraint set-up with its commit;
      [execute_batch] with its commit; [conn.rollback]; the two [close]
      calls *)
  pg_connect : outcome unit;
  pg_schema : outcome unit;
  pg_insert : outcome unit;
  pg_rollback : outcome unit;
  pg_close : outcome unit
}.

(** ** [LinkedInRecentITJobsScraper] *)

Definition it_jobs : list string :=
  ["Backend Developer"; "Frontend Developer"; "Machine Learning Engineer"].

(** [os.environ[key]]; [str] of the [KeyError] is the quoted key. *)
Definition getenv (w : world) (key : string) : outcome string :=
  match environ w !! key with
  | Some v => Ok v
  | None => Raised ("'" +:+ key +:+ "'")
  end.

Definition initial_state : geo_state :=
  {| geocoding_cache := ∅; lookups := [] |}.

(** [__init__]: the five look-ups of [db_config], then the empty cache. *)
Definition init (w : world) : outcome geo_state :=
  let? _ := getenv w "DB_NAME" in
  let? _ := getenv w "DB_USER" in
  let? _ := getenv w "DB_PASSWORD" in
  let? _ := getenv w "DB_HOST" in
  let? _ := getenv w "DB_PORT" in
  Ok initial_state.

(** [find(...).text.strip()]: [.text] on [None] raises. *)
Definition text_of (el : option string) : outcome string :=
  match el with
  | Some t => Ok (strip t)
  | None => Raised "'NoneType' object has no attribute 'text'"
  end.

Definition href_of (el : option string) : outcome string :=
  match el with
  | Some h => Ok h
  | None => Raised "'href'"
  end.

Definition fetch_description (d : detail_outcome) : outcome string :=
  match d with
  | DetailRaises msg => Raised msg
  | DetailPage (Some t) => Ok (strip t)
  | DetailPage None => Ok ""
  end.

(** The part of the card loop's [try] block after [recent_jobs_found = True]:
    lines 176-199. *)
Definition extract_job (w : world) (job_title : string) (c : card) : outcome job :=
  let? title := text_of (title_el c) in
  let? company := text_of (company_el c) in
  let? raw_location := text_of (location_el c) in
  let location := clean_location raw_location in
  let? job_url := href_of (link_href c) in
  let? job_description := fetch_description (detail c) in
  let experience_level := determine_experience_level job_description in
  let work_type := is_remote job_description in
  Ok {| Job_Title := title;
        Company := company;
        Location := location;
        Experience_Level := experience_level;
        Work_Type := work_type;
        Category := job_title;
        Posted_Date :=
          match posted_date_el c with
          | Some d => strip d
          | None => "Recently"
          end;
        Job_URL := job_url;
        Date_Scraped := strftime (reading (scraped_at c)) |}.

(** Does the card get past the recency check of lines 168-172?  A card with
    no date element is not checked. *)
Definition passes_recency (c : card) : bool :=
  match posted_date_el c with
  | Some d => is_recent_job (strip d)
  | None => true
  end.

(** One turn of [for job in job_cards], on the pair
    [(recent_jobs_found, all_jobs)]. *)
Definition scan_card (w : world) (job_title : string)
    (st : bool * list job) (c : card) : bool * list job :=
  if negb (passes_recency c) then st
  else
    match extract_job w job_title c with
    | Ok j => (true, (snd st ++ [j])%list)
    | Raised _ => (true, snd st)
    end.

Definition scan_cards (w : world) (job_title : string)
    (job_cards : list card) (all_jobs : list job) : bool * list job :=
  fold_left (scan_card w job_title) job_cards (false, all_jobs).

(** [while page < max_pages_per_category]; [budget] is
    [max_pages_per_category - page].  The second component is the list of
    result pages requested, oldest first. *)
Fixpoint page_loop (w : world) (job_title : string)
    (budget page consecutive_old_jobs : nat)
    (all_jobs : list job) (requests : list (string * nat))
  : list job * list (string * nat) :=
  match budget with
  | O => (all_jobs, requests)
  | S budget' =>
      let requests := (requests ++ [(job_title, page)])%list in
      match search_page w job_title page with
      | FetchRaises _ => (all_jobs, requests)
      | FetchStatus status_code job_cards =>
          if negb (status_code =? 200)%Z then (all_jobs, requests)
          else
            match job_cards with
            | [] => (all_jobs, requests)
            | _ :: _ =>
                let '(recent_jobs_found, all_jobs) :=
                  scan_cards w job_title job_cards all_jobs in
                if negb recent_jobs_found then
                  let consecutive_old_jobs := S consecutive_old_jobs in
                  if (2 <=? consecutive_old_jobs)%nat then (all_jobs, requests)
                  else page_loop w job_title budget' (S page)
                         consecutive_old_jobs all_jobs requests
                else page_loop w job_title budget' (S page) 0 all_jobs requests
            end
      end
  end.

Definition max_pages_per_category : nat := 1.

(** The body of [for job_title in self.it_jobs]. *)
Definition scrape_term (w : world) (max_pages : nat)
    (acc : list job * list (string * nat)) (job_title : string) :=
  page_loop w job_title max_pages 0 0 (fst acc) (snd acc).

Definition scrape_with (w : world) (max_pages : nat) (terms : list string)
  : list job * list (string * nat) :=
  fold_left (scrape_term w max_pages) terms ([], []).

Definition scrape_linkedin_jobs (w : world) : list job :=
  fst (scrape_with w max_pages_per_category it_jobs).

(** ** [get_coordinates] *)

Definition country_suffix : string := ", United Kingdom".

Definition record_lookup (location : string) (st : geo_state) : geo_state :=
  {| geocoding_cache := geocoding_cache st;
     lookups := (lookups st ++ [location])%list |}.

Definition store (location : string) (v : coords) (st : geo_state) : geo_state :=
  {| geocoding_cache := <[location := v]> (geocoding_cache st);
     lookups := lookups st |}.

(** [float(results[0]['lat'])] and [float(results[0]['lon'])], in that
    order. *)
Definition parse_coords (r : geo_result) : outcome (float * float) :=
  let? lat := match res_lat r with
              | Some x => Ok x
              | None => Raised "could not read 'lat'"
              end in
  let? lon := match res_lon r with
              | Some x => Ok x
              | None => Raised "could not read 'lon'"
              end in
  Ok (lat, lon).

(** The [try] block of lines 100-130, entered on a cache miss.  The request
    is recorded before its answer is looked at, so the state that comes back
    with [Raised] already counts it. *)
Definition lookup_block (w : world) (location : string) (st : geo_state)
  : outcome coords * geo_state :=
  let search_location := location +:+ country_suffix in
  let n := length (lookups st) in
  let st := record_lookup location st in
  match geocode w n search_location with
  | LookupRaises msg => (Raised msg, st)
  | LookupResponse status_code body =>
      if (status_code =? 200)%Z then
        match body with
        | BodyInvalid msg => (Raised msg, st)
        | BodyResults [] =>
            (Ok (None, None), store location (None, None) st)
        | BodyResults (r :: _) =>
            match parse_coords r with
            | Ok (lat, lon) =>
                (Ok (Some lat, Some lon),
                 store location (Some lat, Some lon) st)
            | Raised msg => (Raised msg, st)
            end
        end
      else (Ok (None, None), store location (None, None) st)
  end.

Definition get_coordinates (w : world) (location : string) (st : geo_state)
  : outcome coords * geo_state :=
  if String.eqb location "" then (Ok (None, None), st)
  else
    match geocoding_cache st !! location with
    | Some v => (Ok v, st)
    | None =>
        match lookup_block w location st with
        | (Ok v, st') => (Ok v, st')
        | (Raised _, st') => (Ok (None, None), st')
        end
    end.

(** ** The two writers *)

(** [for job in jobs: lat, lng = self.get_coordinates(job['Location']) ...]:
    the loop of [save_to_s3] (lines 236-242), giving each record with its
    coordinates, and the look-ups of the loop of [save_to_postgres]. *)
Fixpoint geocode_jobs (w : world) (jobs : list job) (st : geo_state)
  : outcome (list (job * coords)) * geo_state :=
  match jobs with
  | [] => (Ok [], st)
  | j :: rest =>
      match get_coordinates w (Location j) st with
      | (Raised msg, st1) => (Raised msg, st1)
      | (Ok c, st1) =>
          match geocode_jobs w rest st1 with
          | (Raised msg, st2) => (Raised msg, st2)
          | (Ok rows, st2) => (Ok ((j, c) :: rows), st2)
          end
      end
  end.

(** The [try] block of [save_to_s3] after the enrichment loop. *)
Definition upload (w : world) : outcome string :=
  let? bucket_name := getenv w "S3_BUCKET_NAME" in
  let file_name := "linkedin_recent_it_jobs_" +:+ now_stamp w +:+ ".csv" in
  let? _ := s3_put w in
  Ok ("s3://" +:+ bucket_name +:+ "/" +:+ file_name).

(** [save_to_s3]: [None] is Python's [None], returned for an empty list and
    from the [except] clause. *)
Definition save_to_s3 (w : world) (jobs : list job) (st : geo_state)
  : option string * geo_state :=
  match jobs with
  | [] => (None, st)
  | _ :: _ =>
      match geocode_jobs w jobs st with
      | (Raised _, st1) => (None, st1)
      | (Ok _, st1) =>
          match upload w with
          | Ok path => (Some path, st1)
          | Raised _ => (None, st1)
          end
      end
  end.

(** [finally]: an exception from [close] replaces the pending one. *)
Definition finally_close (w : world) (pending : outcome unit) : outcome unit :=
  match pg_close w with
  | Raised msg => Raised msg
  | Ok _ => pending
  end.

(** The loop of [save_to_postgres] that builds [job_data] (lines 321-338):
    for each record the coordinates, then the tuple, whose last component is
    [datetime.strptime(job['Date Scraped'], ...)] and raises when the text
    is not a timestamp; the loop ends there, after the look-up for that
    record. *)
Fixpoint job_data (w : world) (jobs : list job) (st : geo_state)
  : outcome (list (job * coords * datetime)) * geo_state :=
  match jobs with
  | [] => (Ok [], st)
  | j :: rest =>
      match get_coordinates w (Location j) st with
      | (Raised msg, st1) => (Raised msg, st1)
      | (Ok c, st1) =>
          match strptime (Date_Scraped j) with
          | Raised msg => (Raised msg, st1)
          | Ok t =>
              match job_data w rest st1 with
              | (Raised msg, st2) => (Raised msg, st2)
              | (Ok rows, st2) => (Ok ((j, c, t) :: rows), st2)
              end
          end
      end
  end.

(** [save_to_postgres]: with no connection there is nothing to roll back or
    close; otherwise the [except] clause rolls back and [finally] closes. *)
Definition save_to_postgres (w : world) (jobs : list job) (st : geo_state)
  : outcome unit * geo_state :=
  match jobs with
  | [] => (Ok tt, st)
  | _ :: _ =>
      match pg_connect w with
      | Raised _ => (Ok tt, st)
      | Ok _ =>
          match pg_schema w with
          | Raised _ => (finally_close w (pg_rollback w), st)
          | Ok _ =>
              match job_data w jobs st with
              | (Raised _, st1) => (finally_close w (pg_rollback w), st1)
              | (Ok _, st1) =>
                  match pg_insert w with
                  | Raised _ => (finally_close w (pg_rollback w), st1)
                  | Ok _ => (finally_close w (Ok tt), st1)
                  end
              end
          end
      end
  end.

(** ** [lambda_handler] *)

(** The summary loop of lines 368-373. *)
Definition count_category (categories : gmap string nat) (j : job)
  : gmap string nat :=
  let category := Category j in
  let categories :=
    match categories !! category with
    | None => <[category := 0]> categories
    | Some _ => categories
    end in
  <[category := default 0 (categories !! category) + 1]> categories.

Definition count_categories (jobs : list job) : gmap string nat :=
  fold_left count_category jobs ∅.

(** The value handed to [json.dumps]. *)
Inductive response_body :=
| Summary (total_jobs : nat) (jobs_by_category : gmap string nat)
    (output_file : option string) (timestamp : string)
| ErrorBody (error : string).

Record response := {
  statusCode : Z;
  body : response_body
}.

(** The [try] block of the handler, with the state the writers leave. *)
Definition run (w : world) : outcome response :=
  let? scraper := init w in
  let jobs := scrape_linkedin_jobs w in
  let '(s3_path, st1) := save_to_s3 w jobs scraper in
  let '(saved, st2) := save_to_postgres w jobs st1 in
  let? _ := saved in
  Ok {| statusCode := 200;
        body := Summary (length jobs) (count_categories jobs) s3_path
                  (now_text w) |}.

Definition lambda_handler (w : world) : response :=
  match run w with
  | Ok r => r
  | Raised msg => {| statusCode := 500; body := ErrorBody msg |}
  end.

(** ** Vocabulary of the specification *)

(** [w] occurs in [s] as a contiguous piece. *)
Definition occurs_in (w s : string) : Prop := exists p r, s = p +:+ w +:+ r.

(** [s.endswith(w)] *)
Fixpoint ends_with (w s : string) : bool :=
  String.eqb s w
  || match s with
     | "" => false
     | String _ s' => ends_with w s'
     end.

Definition line_break : string := String newline "".

(** [s[n:]] *)
Fixpoint drop (n : nat) (s : string) : string :=
  match n, s with
  | O, _ => s
  | S n', String _ s' => drop n' s'
  | S _, "" => ""
  end.

(** The phrases the recency predicate looks for. *)
Definition recent_phrases : list string :=
  ["hours ago"; "hour ago"; "day ago"; "1 day ago"; "2 days ago"; "3 days ago"].

(** The records one term's loop adds, and the result pages it asks for. *)
Definition term_records (w : world) (max_pages : nat) (job_title : string)
  : list job :=
  fst (page_loop w job_title max_pages 0 0 [] []).

Definition term_requests (w : world) (max_pages : nat) (job_title : string)
  : list (string * nat) :=
  snd (page_loop w job_title max_pages 0 0 [] []).

(** A page that was fetched with status 200, has at least one card, and has
    no card that gets past the recency check. *)
Definition stale_page (w : world) (job_title : string) (page : nat) : Prop :=
  exists job_cards,
    search_page w job_title page = FetchStatus 200 job_cards /\
    job_cards <> [] /\
    existsb passes_recency job_cards = false.

(** Record [r] was extracted from card [c] of some result page of the term
    [job_title]. *)
Definition extracted_from (w : world) (job_title : string) (c : card) (r : job)
  : Prop :=
  exists page status_code job_cards,
    search_page w job_title page = FetchStatus status_code job_cards /\
    In c job_cards /\
    extract_job w job_title c = Ok r.

(** The number of records of a list that carry a category. *)
Definition records_of (category : string) (jobs : list job) : nat :=
  length (List.filter (fun j => String.eqb (Category j) category) jobs).

(** The location cleaner as the specification words it: each regional suffix
    is cut from the end of the text, a leading "Greater " is cut from its
    start, and the text before the first comma is kept, trimmed. *)
Definition cut_suffix (w s : string) : string :=
  if ends_with w s
  then substring 0 (String.length s - String.length w) s
  else s.

Definition cut_prefix (w s : string) : string :=
  if starts_with w s
  then substring (String.length w) (String.length s - String.length w) s
  else s.

Definition regional_suffixes : list string :=
  [", England, United Kingdom"; ", United Kingdom"; ", UK";
   " Area, United Kingdom"; " Area"].

Definition clean_location_spec (location : string) : string :=
  let location := fold_left (fun s w => cut_suffix w s) regional_suffixes location in
  let location := cut_prefix "Greater " location in
  if contains "," location
  then strip (split_head comma location)
  else location.

(** What the summary loop leaves under a category that held [before] and
    gets [n] more records. *)
Definition tally (before : option nat) (n : nat) : option nat :=
  match before, n with
  | None, O => None
  | None, S _ => Some n
  | Some k, _ => Some (k + n)
  end.

(** The keywords [is_remote] looks for. *)
Definition remote_words : list string :=
  ["remote"; "work from home"; "wfh"; "hybrid"].

(** The records one card contributes, and those of a list of cards, in page
    order. *)
Definition card_records (w : world) (job_title : string) (c : card) : list job :=
  if passes_recency c then
    match extract_job w job_title c with
    | Ok r => [r]
    | Raised _ => []
    end
  else [].

Definition page_records (w : world) (job_title : string) (job_cards : list card)
  : list job :=
  flat_map (card_records w job_title) job_cards.

(** The records of page 0 of a term, when the page came back with status
    200. *)
Definition first_page_records (w : world) (job_title : string) : list job :=
  match search_page w job_title 0 with
  | FetchStatus status_code job_cards =>
      if (status_code =? 200)%Z then page_records w job_title job_cards else []
  | FetchRaises _ => []
  end.

(** A page that came back with status 200 and at least one card, and such a
    page with a card past the recency check. *)
Definition page_has_cards (w : world) (job_title : string) (page : nat) : Prop :=
  exists job_cards,
    search_page w job_title page = FetchStatus 200 job_cards /\ job_cards <> [].

Definition fresh_page (w : world) (job_title : string) (page : nat) : Prop :=
  exists job_cards,
    search_page w job_title page = FetchStatus 200 job_cards /\
    existsb passes_recency job_cards = true.

(** A first page that ends a term at once: the request raised, the status
    was not 200, or the page had no card. *)
Definition first_page_fails (w : world) (job_title : string) : Prop :=
  match search_page w job_title 0 with
  | FetchRaises _ => True
  | FetchStatus status_code job_cards =>
      status_code <> 200%Z \/ job_cards = []
  end.

Definition level_values : list string :=
  ["Senior Level"; "Entry Level"; "Mid Level"].

Definition work_values : list string := ["Hybrid"; "Remote"; "On-site"].

(** A pair of coordinates is whole when both are present or both absent. *)
Definition whole (v : coords) : bool :=
  match v with
  | (Some _, Some _) | (None, None) => true
  | _ => false
  end.


(** The environment variables [__init__] reads, in the order it reads
    them. *)
Definition db_keys : list string :=
  ["DB_NAME"; "DB_USER"; "DB_PASSWORD"; "DB_HOST"; "DB_PORT"].

(** The sum of the counts of a [jobs_by_category] mapping. *)
Definition sum_counts (categories : gmap string nat) : nat :=
  map_fold (fun _ n total => n + total) 0 categories.

(** The object key and the path [save_to_s3] returns for a bucket. *)
Definition s3_path_of (w : world) (bucket_name : string) : string :=
  "s3://" +:+ bucket_name +:+ "/" +:+
  ("linkedin_recent_it_jobs_" +:+ now_stamp w +:+ ".csv").

(** Does [strptime] accept the 'Date Scraped' of a record? *)
Definition stamp_parses (j : job) : bool :=
  match strptime (Date_Scraped j) with
  | Ok _ => true
  | Raised _ => false
  end.

(** ** Sample inputs *)

(** The clock at 2024-01-15 09:30:00. *)
Definition sample_reading : clock_reading :=
  {| reading := {| year := 2024; month := 1; day := 15;
                   hour := 9; minute := 30; second := 0 |};
     reading_ok := eq_refl |}.

Definition card_dated (posted : option string) (title : option string) : card :=
  {| posted_date_el := posted;
     title_el := title;
     company_el := Some "Acme Ltd";
     location_el := Some "Leeds, England, United Kingdom";
     link_href := Some "https://www.linkedin.com/jobs/view/1";
     detail := DetailPage (Some "Senior engineer wanted, hybrid working");
     scraped_at := sample_reading |}.

Definition fresh_card : card := card_dated (Some "2 days ago") (Some "Engineer").
Definition old_card : card := card_dated (Some "2 weeks ago") (Some "Engineer").
Definition undated_card : card := card_dated None (Some "Engineer").

(** What [fresh_card] becomes under the term "Backend Developer". *)
Definition fresh_record : job :=
  {| Job_Title := "Engineer";
     Company := "Acme Ltd";
     Location := "Leeds";
     Experience_Level := "Senior Level";
     Work_Type := "Hybrid";
     Category := "Backend Developer";
     Posted_Date := "2 days ago";
     Job_URL := "https://www.linkedin.com/jobs/view/1";
     Date_Scraped := "2024-01-15 09:30:00" |}.


Definition full_environ : gmap string string :=
  list_to_map
    [("DB_NAME", "jobs"); ("DB_USER", "scraper"); ("DB_PASSWORD", "secret");
     ("DB_HOST", "localhost"); ("DB_PORT", "5432");
     ("S3_BUCKET_NAME", "job-bucket")].

(** A world in which every store call succeeds, with the given search
    results and geocoding service. *)
Definition world_of (search : string -> nat -> fetch_outcome)
    (geo : nat -> string -> lookup_outcome) : world :=
  {| environ := full_environ;
     now_text := "2024-01-15 09:30:00";
     now_stamp := "20240115_093000";
     search_page := search;
     geocode := geo;
     s3_put := Ok tt;
     pg_connect := Ok tt;
     pg_schema := Ok tt;
     pg_insert := Ok tt;
     pg_rollback := Ok tt;
     pg_close := Ok tt |}.

(** A world whose insert fails and whose rollback fails after it, one whose
    insert fails and is rolled back, and one whose upload fails. *)
Definition broken_database (w : world) : world :=
  {| environ := environ w; now_text := now_text w; now_stamp := now_stamp w;
     search_page := search_page w; geocode := geocode w; s3_put := s3_put w;
     pg_connect := Ok tt; pg_schema := Ok tt;
     pg_insert := Raised "connection lost";
     pg_rollback := Raised "connection already closed";
     pg_close := Ok tt |}.

Definition failed_insert (w : world) : world :=
  {| environ := environ w; now_text := now_text w; now_stamp := now_stamp w;
     search_page := search_page w; geocode := geocode w; s3_put := s3_put w;
     pg_connect := Ok tt; pg_schema := Ok tt;
     pg_insert := Raised "connection lost";
     pg_rollback := Ok tt;
     pg_close := Ok tt |}.

Definition failed_upload (w : world) : world :=
  {| environ := environ w; now_text := now_text w; now_stamp := now_stamp w;
     search_page := search_page w; geocode := geocode w;
     s3_put := Raised "access denied";
     pg_connect := pg_connect w; pg_schema := pg_schema w;
     pg_insert := pg_insert w; pg_rollback := pg_rollback w;
     pg_close := pg_close w |}.

(** A world whose database calls go through, except that the rollback
    raises. *)
Definition failing_rollback (w : world) : world :=
  {| environ := environ w; now_text := now_text w; now_stamp := now_stamp w;
     search_page := search_page w; geocode := geocode w; s3_put := s3_put w;
     pg_connect := Ok tt; pg_schema := Ok tt; pg_insert := Ok tt;
     pg_rollback := Raised "connection already closed";
     pg_close := Ok tt |}.

(** A record whose 'Date Scraped' is not a timestamp. *)
Definition misdated_record : job :=
  {| Job_Title := "Engineer";
     Company := "Acme Ltd";
     Location := "Leeds";
     Experience_Level := "Mid Level";
     Work_Type := "On-site";
     Category := "Backend Developer";
     Posted_Date := "Recently";
     Job_URL := "https://www.linkedin.com/jobs/view/3";
     Date_Scraped := "yesterday" |}.

(** A world in which [DB_PASSWORD] is not set. *)
Definition no_password (w : world) : world :=
  {| environ := delete "DB_PASSWORD" (environ w);
     now_text := now_text w; now_stamp := now_stamp w;
     search_page := search_page w; geocode := geocode w; s3_put := s3_put w;
     pg_connect := pg_connect w; pg_schema := pg_schema w;
     pg_insert := pg_insert w; pg_rollback := pg_rollback w;
     pg_close := pg_close w |}.

Definition geo_down : nat -> string -> lookup_outcome :=
  fun _ _ => LookupRaises "connection refused".

Definition geo_empty : nat -> string -> lookup_outcome :=
  fun _ _ => LookupResponse 200 (BodyResults []).

Definition geo_leeds : nat -> string -> lookup_outcome :=
  fun _ _ =>
    LookupResponse 200
      (BodyResults [{| res_lat := Some 53.5%float; res_lon := Some (-1.5)%float |}]).

Definition geo_half : nat -> string -> lookup_outcome :=
  fun _ _ =>
    LookupResponse 200
      (BodyResults [{| res_lat := Some 53.5%float; res_lon := None |}]).

(** Every result page of every term holds the same cards. *)
Definition pages_of (job_cards : list card) : string -> nat -> fetch_outcome :=
  fun _ _ => FetchStatus 200 job_cards.

Definition search_down : string -> nat -> fetch_outcome :=
  fun _ _ => FetchStatus 429 [].

(** ** Facts about the text primitives *)

Section TextFacts.

Implicit Types (s t w p r : string) (a b c : ascii).

Lemma string_app_cons a s t : String a s +:+ t = String a (s +:+ t).
Proof. reflexivity. Qed.

Lemma string_app_nil_r s : s +:+ "" = s.
Proof. induction s as [|a s IH]; [reflexivity|]. now rewrite string_app_cons, IH. Qed.

Lemma string_app_assoc s t r : (s +:+ t) +:+ r = s +:+ (t +:+ r).
Proof. induction s as [|a s IH]; [reflexivity|]. now rewrite !string_app_cons, IH. Qed.

Lemma string_length_app s t : String.length (s +:+ t) = String.length s + String.length t.
Proof. induction s as [|a s IH]; [reflexivity|]. rewrite string_app_cons. simpl. lia. Qed.

Lemma starts_with_spec w s : starts_with w s = true <-> exists r, s = w +:+ r.
Proof.
  revert s. induction w as [|a w IH]; intros s; simpl.
  - split; [intros _; now exists s | reflexivity].
  - destruct s as [|b s].
    + split; [discriminate | intros [r Hr]; discriminate].
    + rewrite andb_true_iff, Ascii.eqb_eq, IH. split.
      * intros [-> [r ->]]. now exists r.
      * intros [r Hr]. rewrite string_app_cons in Hr. injection Hr as -> ->. eauto.
Qed.

Lemma contains_spec w s : contains w s = true <-> occurs_in w s.
Proof.
  unfold occurs_in. induction s as [|c s IH].
  - simpl. rewrite orb_false_r, starts_with_spec. split.
    + intros [r Hr]. now exists "", r.
    + intros [p [r Hr]]. destruct p; [now exists r | discriminate].
  - cbn [contains]. rewrite orb_true_iff, starts_with_spec, IH. split.
    + intros [[r Hr] | [p [r Hr]]].
      * now exists "", r.
      * exists (String c p), r. now rewrite string_app_cons, Hr.
    + intros [p [r Hr]]. destruct p as [|b p].
      * left. now exists r.
      * right. rewrite string_app_cons in Hr. injection Hr as _ ->. now exists p, r.
Qed.

Lemma contains_false_tail w c s : contains w (String c s) = false -> contains w s = false.
Proof. cbn [contains]. now intros [_ H]%orb_false_iff. Qed.

Lemma contains_false_head w c s :
  contains w (String c s) = false -> starts_with w (String c s) = false.
Proof. cbn [contains]. now intros [H _]%orb_false_iff. Qed.

Lemma lower_app s t : lower (s +:+ t) = lower s +:+ lower t.
Proof. induction s as [|a s IH]; [reflexivity|]. rewrite string_app_cons. simpl. now rewrite IH. Qed.

Lemma any_in_spec words text :
  any_in words text = true <-> exists w, In w words /\ occurs_in w text.
Proof.
  unfold any_in. rewrite existsb_exists.
  split; intros [w [Hin Hw]]; exists w; split; auto; now apply contains_spec.
Qed.

Lemma any_in_false words text :
  any_in words text = false <-> forall w, In w words -> ~ occurs_in w text.
Proof.
  rewrite <- not_true_iff_false, any_in_spec. split.
  - intros H w Hin Hw. apply H. eauto.
  - intros H [w [Hin Hw]]. exact (H w Hin Hw).
Qed.

End TextFacts.

(** ** Facts about timestamps *)

Section TimestampFacts.


Lemma digit_of_char d : d < 10 -> digit_of (digit_char d) = Some d.
Proof. intros H. do 10 (destruct d as [|d]; [reflexivity|]). lia. Qed.

Lemma digit_char_not_blank d : d < 10 -> Ascii.eqb (digit_char d) " " = false.
Proof. intros H. do 10 (destruct d as [|d]; [reflexivity|]). lia. Qed.

Lemma digit_char_not_space d : d < 10 -> is_space (digit_char d) = false.
Proof. intros H. do 10 (destruct d as [|d]; [reflexivity|]). lia. Qed.

Lemma digits_stop c r : digit_of c = None -> digits (String c r) = ([], String c r).
Proof. intros H. cbn [digits]. now rewrite H. Qed.

Lemma digits_two n rest :
  n < 100 -> digits rest = ([], rest) ->
  digits (two_digits n +:+ rest) = ([n / 10; n mod 10], rest).
Proof.
  intros Hn Hrest. unfold two_digits.
  change (digits (String (digit_char (n / 10))
            (String (digit_char (n mod 10)) rest))
          = ([n / 10; n mod 10], rest)).
  cbn [digits].
  rewrite !digit_of_char, Hrest; [reflexivity | |].
  - apply Nat.mod_upper_bound. lia.
  - apply Nat.Div0.div_lt_upper_bound. lia.
Qed.

Lemma digits_four n rest :
  n < 100 * 100 -> digits rest = ([], rest) ->
  digits (four_digits n +:+ rest) =
  ([n / 1000; n / 100 mod 10; n mod 100 / 10; n mod 100 mod 10], rest).
Proof.
  intros Hn Hrest. unfold four_digits.
  change (digits (String (digit_char (n / 1000))
            (String (digit_char (n / 100 mod 10)) (two_digits (n mod 100) +:+ rest)))
          = ([n / 1000; n / 100 mod 10; n mod 100 / 10; n mod 100 mod 10], rest)).
  cbn [digits].
  rewrite !digit_of_char, digits_two;
    first [ reflexivity | exact Hrest
          | apply Nat.mod_upper_bound; lia
          | apply Nat.Div0.div_lt_upper_bound; lia ].
Qed.

Lemma between_two lo hi n :
  n < 100 ->
  between lo hi [n / 10; n mod 10] =
  if (lo <=? n)%nat && (n <=? hi)%nat then Some n else None.
Proof.
  intros Hn. unfold between.
  assert (n / 10 * 10 + n mod 10 = n) as ->; [|reflexivity].
  rewrite Nat.mul_comm. symmetry. apply Nat.div_mod_eq.
Qed.

Lemma year_field_four n :
  n < 100 * 100 ->
  year_field [n / 1000; n / 100 mod 10; n mod 100 / 10; n mod 100 mod 10]
  = Some n.
Proof.
  intros Hn. unfold year_field. f_equal.
  pose proof (Nat.div_mod_eq n 100) as H1.
  pose proof (Nat.div_mod_eq (n / 100) 10) as H2.
  pose proof (Nat.div_mod_eq (n mod 100) 10) as H3.
  replace (n / 1000) with (n / 100 / 10)
    by (rewrite Nat.Div0.div_div; reflexivity).
  lia.
Qed.

Lemma lstrip_digit d rest :
  d < 10 -> lstrip (String (digit_char d) rest) = String (digit_char d) rest.
Proof. intros H. cbn [lstrip]. now rewrite digit_char_not_space. Qed.

Lemma days_in_month_le y m : days_in_month y m <= 31.
Proof.
  unfold days_in_month.
  do 13 (destruct m as [|m]; [cbn; try destruct (is_leap y); lia|]).
  cbn. lia.
Qed.

Lemma day_and_blank_two d rest :
  1 <= d <= 31 ->
  day_and_blank (two_digits d +:+ String " " rest) = Some (d, lstrip rest).
Proof.
  intros Hd. unfold day_and_blank.
  change (two_digits d +:+ String " " rest)
    with (String (digit_char (d / 10))
            (String (digit_char (d mod 10)) (String " " rest))).
  cbv beta iota.
  rewrite digit_char_not_blank by (apply Nat.Div0.div_lt_upper_bound; lia).
  change (String (digit_char (d / 10))
            (String (digit_char (d mod 10)) (String " " rest)))
    with (two_digits d +:+ String " " rest).
  rewrite digits_two; [| lia | apply digits_stop; reflexivity].
  unfold day_field. rewrite between_two by lia.
  assert ((1 <=? d)%nat && (d <=? 31)%nat = true) as ->
    by (apply andb_true_iff; split; apply Nat.leb_le; lia).
  reflexivity.
Qed.

(** [strptime] reads back what [strftime] wrote. *)
Lemma strptime_strftime_valid (t : datetime) :
  valid_datetime t = true -> strptime (strftime t) = Ok t.
Proof.
  intros Hv. destruct t as [y m d hh mi ss].
  pose proof Hv as Hb. unfold valid_datetime in Hb. cbn [year month day hour minute second] in Hb.
  repeat (apply andb_true_iff in Hb as [Hb ?]).
  repeat match goal with
         | H : (_ <=? _)%nat = true |- _ => apply Nat.leb_le in H
         | H : (_ <? _)%nat = true |- _ => apply Nat.ltb_lt in H
         end.
  assert (Hd : d <= 31) by (pose proof (days_in_month_le y m); lia).
  unfold strptime.
  assert (Hp : parse_fields
                 (strftime {| year := y; month := m; day := d;
                              hour := hh; minute := mi; second := ss |})
               = Some {| year := y; month := m; day := d;
                         hour := hh; minute := mi; second := ss |}).
  { unfold strftime, parse_fields. cbn [year month day hour minute second].
    rewrite digits_four; [| lia | apply digits_stop; reflexivity].
    rewrite year_field_four by lia.
    change ("-" +:+ ?x) with (String "-" x). cbn [Ascii.eqb Bool.eqb negb].
    rewrite digits_two; [| lia | apply digits_stop; reflexivity].
    unfold month_field. rewrite between_two by lia.
    assert ((1 <=? m)%nat && (m <=? 12)%nat = true) as ->
      by (apply andb_true_iff; split; [now apply Nat.leb_le | now apply Nat.leb_le]).
    change ("-" +:+ ?x) with (String "-" x). cbn [Ascii.eqb Bool.eqb negb].
    change (" " +:+ ?x) with (String " " x).
    rewrite day_and_blank_two by lia.
    change (two_digits hh +:+ ?x)
      with (String (digit_char (hh / 10)) (String (digit_char (hh mod 10)) x)).
    rewrite lstrip_digit by (apply Nat.Div0.div_lt_upper_bound; lia).
    change (String (digit_char (hh / 10)) (String (digit_char (hh mod 10)) ?x))
      with (two_digits hh +:+ x).
    rewrite digits_two; [| lia | apply digits_stop; reflexivity].
    unfold hour_field. rewrite between_two by lia.
    assert ((0 <=? hh)%nat && (hh <=? 23)%nat = true) as ->
      by (apply andb_true_iff; split; apply Nat.leb_le; lia).
    change (":" +:+ ?x) with (String ":" x). cbn [Ascii.eqb Bool.eqb negb].
    rewrite digits_two; [| lia | apply digits_stop; reflexivity].
    unfold minute_field. rewrite between_two by lia.
    assert ((0 <=? mi)%nat && (mi <=? 59)%nat = true) as ->
      by (apply andb_true_iff; split; apply Nat.leb_le; lia).
    change (":" +:+ ?x) with (String ":" x). cbn [Ascii.eqb Bool.eqb negb].
    rewrite <- (string_app_nil_r (two_digits ss)).
    rewrite digits_two; [| lia | reflexivity].
    unfold second_field. rewrite between_two by lia.
    assert ((0 <=? ss)%nat && (ss <=? 61)%nat = true) as ->
      by (apply andb_true_iff; split; apply Nat.leb_le; lia).
    reflexivity. }
  now rewrite Hp, Hv.
Qed.

Lemma reading_valid (r : clock_reading) : valid_datetime (reading r) = true.
Proof. destruct r as [t H]. cbn. now apply andb_true_iff in H as [H _]. Qed.

Lemma strptime_reading (r : clock_reading) :
  strptime (strftime (reading r)) = Ok (reading r).
Proof. apply strptime_strftime_valid, reading_valid. Qed.

End TimestampFacts.

(** ** Facts about [re.sub] on the two pattern shapes *)

Section ReSubFacts.

Implicit Types (s t w q r : string) (a b c d : ascii) (p : pattern).

Lemma drop_app w r : drop (String.length w) (w +:+ r) = r.
Proof. induction w as [|a w IH]; [reflexivity|]. rewrite string_app_cons. exact IH. Qed.

Lemma drop_all w : drop (String.length w) w = "".
Proof. rewrite <- (string_app_nil_r w) at 2. apply drop_app. Qed.

Lemma ends_with_spec w s : ends_with w s = true <-> exists q, s = q +:+ w.
Proof.
  induction s as [|c s IH]; cbn [ends_with].
  - rewrite orb_false_r, String.eqb_eq. split.
    + intros <-. now exists "".
    + intros [q Hq]. destruct q; [exact Hq | discriminate].
  - rewrite orb_true_iff, String.eqb_eq, IH. split.
    + intros [<- | [q ->]]; [now exists "" | now exists (String c q)].
    + intros [[|b q] Hq]; [now left | right].
      rewrite string_app_cons in Hq. injection Hq as _ ->. now exists q.
Qed.

Lemma ends_with_false w s q : ends_with w s = false -> s <> q +:+ w.
Proof.
  intros H ->. rewrite <- not_true_iff_false in H. apply H.
  apply ends_with_spec. now exists q.
Qed.

Lemma at_dollar_spec s : at_dollar s = true <-> s = "" \/ s = line_break.
Proof.
  destruct s as [|c [|d s]]; simpl.
  - tauto.
  - rewrite Ascii.eqb_eq. unfold line_break. split.
    + intros ->. now right.
    + intros [H | H]; [discriminate | now injection H].
  - split; [discriminate | intros [H | H]; discriminate].
Qed.

Lemma match_end_spec w s :
  match_end w s = true <-> s = w \/ s = w +:+ line_break.
Proof.
  revert s. induction w as [|a w IH]; intros s.
  - destruct s; apply at_dollar_spec.
  - destruct s as [|b s]; cbn [match_end].
    + split; [discriminate | intros [H | H]; discriminate].
    + rewrite andb_true_iff, Ascii.eqb_eq, IH, string_app_cons. split.
      * intros [-> [-> | ->]]; auto.
      * intros [H | H]; injection H as -> ->; auto.
Qed.

Lemma re_sub_go_skip p k s : re_sub_go p k s = re_sub_go p 0 (drop k s).
Proof.
  revert k. induction s as [|c s IH]; intros [|k]; try reflexivity.
  cbn [re_sub_go drop]. apply IH.
Qed.

(** With no match anywhere, [re.sub] gives the text back. *)
Lemma re_sub_no_match p s :
  (forall q r, s = q +:+ r -> match_here p r = false) -> re_sub p s = s.
Proof.
  unfold re_sub. induction s as [|c s IH]; intros H; [reflexivity|].
  cbn [re_sub_go]. rewrite (H "" (String c s) eq_refl). f_equal.
  apply IH. intros q r ->. now apply (H (String c q) r).
Qed.

(** A match at the head is deleted and the scan resumes after it. *)
Lemma re_sub_match_head p s :
  pat_lit p <> "" -> match_here p s = true ->
  re_sub p s = re_sub p (drop (String.length (pat_lit p)) s).
Proof.
  unfold re_sub. intros Hne Hm. destruct s as [|c s].
  - now destruct (String.length (pat_lit p)).
  - cbn [re_sub_go]. rewrite Hm, re_sub_go_skip.
    destruct (pat_lit p) as [|a l]; [congruence|].
    cbn [String.length drop Nat.sub]. now rewrite ?Nat.sub_0_r.
Qed.

Lemma re_sub_no_match_head p c s :
  match_here p (String c s) = false ->
  re_sub p (String c s) = String c (re_sub p s).
Proof. unfold re_sub. cbn [re_sub_go]. now intros ->. Qed.

(** A text that is its own rotation by one character repeats that
    character. *)
Lemma rotate_same c d w : String c w = w +:+ String d "" -> c = d.
Proof.
  revert c. induction w as [|b w IH]; intros c H.
  - now injection H.
  - rewrite string_app_cons in H. injection H as -> H. now apply IH.
Qed.

Section EndAnchored.

Variables (a : ascii) (w0 : string).
Hypothesis Hnl : a <> newline.

Let w := String a w0.

Lemma match_end_line_break : match_end w line_break = false.
Proof.
  unfold w, line_break. cbn [match_end]. apply andb_false_iff. left.
  apply Ascii.eqb_neq. exact Hnl.
Qed.

Lemma match_end_longer c q r :
  r = w \/ r = w +:+ line_break -> match_end w (String c q +:+ r) = false.
Proof.
  intros Hr. apply not_true_iff_false. intros [H | H]%match_end_spec.
  - apply (f_equal String.length) in H.
    destruct Hr as [-> | ->]; unfold line_break in H;
      rewrite ?string_app_cons, ?string_length_app in H; cbn [String.length] in H;
      rewrite ?string_length_app in H; cbn [String.length] in H; lia.
  - destruct Hr as [-> | ->].
    + assert (q = "") as ->.
      { apply (f_equal String.length) in H. unfold line_break in H.
        rewrite string_app_cons, !string_length_app in H. cbn [String.length] in H.
        rewrite string_length_app in H. destruct q; [reflexivity|].
        cbn [String.length] in H. lia. }
      rewrite string_app_cons in H. change ("" +:+ w) with w in H.
      pose proof (rotate_same _ _ _ H) as ->.
      unfold w in H. rewrite string_app_cons in H. injection H as <- _. now apply Hnl.
    + apply (f_equal String.length) in H. unfold line_break in H.
      rewrite string_app_cons, !string_length_app in H. cbn [String.length] in H.
      rewrite !string_length_app in H. cbn [String.length] in H. lia.
Qed.

(** The pattern [w$] deletes [w] at the end of the text... *)
Lemma re_sub_end_suffix q : re_sub (LitEnd w) (q +:+ w) = q.
Proof.
  induction q as [|c q IH].
  - change ("" +:+ w) with w. rewrite re_sub_match_head.
    + cbn [pat_lit]. now rewrite drop_all.
    + discriminate.
    + apply match_end_spec. now left.
  - rewrite string_app_cons, re_sub_no_match_head, IH; [reflexivity|].
    rewrite <- string_app_cons. apply match_end_longer. now left.
Qed.

(** ... and just before a line break that ends the text... *)
Lemma re_sub_end_suffix_nl q :
  re_sub (LitEnd w) (q +:+ w +:+ line_break) = q +:+ line_break.
Proof.
  induction q as [|c q IH].
  - change ("" +:+ ?x) with x. rewrite re_sub_match_head.
    + cbn [pat_lit]. rewrite drop_app. unfold line_break.
      rewrite re_sub_no_match_head; [reflexivity|]. apply match_end_line_break.
    + discriminate.
    + apply match_end_spec. now right.
  - rewrite string_app_cons, re_sub_no_match_head, IH; [reflexivity|].
    rewrite <- string_app_cons. apply match_end_longer. now right.
Qed.

(** ... and nothing else. *)
Lemma re_sub_end_other s :
  ends_with w s = false -> ends_with (w +:+ line_break) s = false ->
  re_sub (LitEnd w) s = s.
Proof.
  intros H1 H2. apply re_sub_no_match. intros q r ->.
  apply not_true_iff_false. intros [-> | ->]%match_end_spec.
  - now apply (ends_with_false _ _ q) in H1.
  - now apply (ends_with_false _ _ q) in H2.
Qed.

End EndAnchored.

(** An unanchored literal is deleted wherever it starts. *)
Lemma re_sub_lit_head w r : w <> "" -> re_sub (Lit w) (w +:+ r) = re_sub (Lit w) r.
Proof.
  intros Hne. rewrite re_sub_match_head; cbn [pat_lit]; auto.
  - now rewrite drop_app.
  - apply starts_with_spec. now exists r.
Qed.

Lemma re_sub_lit_absent w s : contains w s = false -> re_sub (Lit w) s = s.
Proof.
  intros H. apply re_sub_no_match. intros q r ->. cbn [match_here].
  apply not_true_iff_false. intros [t ->]%starts_with_spec.
  rewrite <- not_true_iff_false in H. apply H, contains_spec. now exists q, t.
Qed.

End ReSubFacts.

(** ** The location cleaner *)

Section CleanLocation.

Implicit Types (s t w q r x y : string) (a b c : ascii).

Lemma not_newline a : Ascii.eqb a newline = false -> a <> newline.
Proof. now intros H%Ascii.eqb_neq. Qed.

(** Each regional suffix starts with a character other than a line break, so
    the facts about end-anchored patterns apply to it. *)
Lemma regional_suffix_shape w :
  In w regional_suffixes -> exists a w0, w = String a w0 /\ a <> newline.
Proof.
  unfold regional_suffixes. intros H.
  repeat (destruct H as [<- | H];
    [eexists _, _; split; [reflexivity | now apply not_newline] |]).
  destruct H.
Qed.

Lemma contains_char c b s :
  contains (String c "") (String b s) = Ascii.eqb c b || contains (String c "") s.
Proof. cbn [contains starts_with]. now rewrite andb_true_r. Qed.

Lemma split_head_no_sep c s : contains (String c "") (split_head c s) = false.
Proof.
  induction s as [|b s IH]; [reflexivity|]. cbn [split_head].
  destruct (Ascii.eqb b c) eqn:E; [reflexivity|].
  rewrite contains_char, IH, Ascii.eqb_sym, E. reflexivity.
Qed.

Lemma split_head_app c q r :
  contains (String c "") q = false -> split_head c (q +:+ String c r) = q.
Proof.
  induction q as [|b q IH]; intros H.
  - change ("" +:+ ?z) with z. cbn [split_head]. now rewrite Ascii.eqb_refl.
  - rewrite contains_char in H. apply orb_false_iff in H as [Hb Hq].
    rewrite string_app_cons. cbn [split_head]. rewrite Ascii.eqb_sym, Hb.
    now rewrite IH.
Qed.

Lemma lstrip_no_char c s :
  contains (String c "") s = false -> contains (String c "") (lstrip s) = false.
Proof.
  induction s as [|b s IH]; [reflexivity|]. intros H. cbn [lstrip].
  destruct (is_space b); [|exact H].
  rewrite contains_char in H. apply orb_false_iff in H as [_ H]. auto.
Qed.

Lemma rstrip_no_char c s :
  contains (String c "") s = false -> contains (String c "") (rstrip s) = false.
Proof.
  induction s as [|b s IH]; [reflexivity|]. intros H.
  rewrite contains_char in H. apply orb_false_iff in H as [Hb H].
  specialize (IH H). cbn [rstrip]. destruct (rstrip s) as [|d t].
  - destruct (is_space b); [reflexivity|]. rewrite contains_char, Hb. reflexivity.
  - rewrite contains_char, Hb. exact IH.
Qed.

Lemma strip_no_char c s :
  contains (String c "") s = false -> contains (String c "") (strip s) = false.
Proof. intros H. unfold strip. now apply rstrip_no_char, lstrip_no_char. Qed.

(** What [clean_location] returns has no comma. *)
Lemma clean_location_no_comma x : contains "," (clean_location x) = false.
Proof.
  unfold clean_location.
  destruct (contains "," (re_sub (Lit "Greater ") _)) eqn:E; [|exact E].
  apply strip_no_char, split_head_no_sep.
Qed.

(** A text with no comma does not end with a piece that has one. *)
Lemma no_comma_ends_with w s :
  contains "," w = true -> contains "," s = false -> ends_with w s = false.
Proof.
  intros [p [r ->]]%contains_spec Hs. apply not_true_iff_false.
  intros [q ->]%ends_with_spec. rewrite <- not_true_iff_false in Hs.
  apply Hs, contains_spec. exists (q +:+ p), r. now rewrite !string_app_assoc.
Qed.

Lemma re_sub_end_no_comma a w0 s :
  contains "," (String a w0) = true -> contains "," s = false ->
  re_sub (LitEnd (String a w0)) s = s.
Proof.
  intros Hw Hs. apply re_sub_end_other.
  - now apply no_comma_ends_with.
  - apply no_comma_ends_with; auto.
    apply contains_spec in Hw as [p [r Hw]]. apply contains_spec.
    exists p, (r +:+ line_break). now rewrite Hw, !string_app_assoc.
Qed.

(** C6, as amended: the five regional suffixes are deleted in that order,
    each at the end of the text or just before a line break that ends it;
    then "Greater " is deleted wherever it occurs, not only at the start;
    then, if a comma is left, the trimmed text before the first comma is
    kept.  The three examples of the specification come out as stated. *)
Theorem clean_location_steps :
  (forall s,
     clean_location s =
     let z := re_sub (Lit "Greater ")
                (fold_left (fun t w => re_sub (LitEnd w) t) regional_suffixes s) in
     if contains "," z then strip (split_head comma z) else z) /\
  (forall w, In w regional_suffixes ->
     (forall q, re_sub (LitEnd w) (q +:+ w) = q) /\
     (forall q, re_sub (LitEnd w) (q +:+ w +:+ line_break) = q +:+ line_break) /\
     (forall s, ends_with w s = false -> ends_with (w +:+ line_break) s = false ->
                re_sub (LitEnd w) s = s)) /\
  (forall r, re_sub (Lit "Greater ") ("Greater " +:+ r) = re_sub (Lit "Greater ") r) /\
  (forall c r, starts_with "Greater " (String c r) = false ->
     re_sub (Lit "Greater ") (String c r) = String c (re_sub (Lit "Greater ") r)) /\
  (forall q r, contains "," q = false -> split_head comma (q +:+ "," +:+ r) = q) /\
  clean_location "London, England, United Kingdom" = "London" /\
  clean_location "Greater Manchester Area" = "Manchester" /\
  clean_location "Bristol, UK" = "Bristol" /\
  clean_location "Inner Greater London" = "Inner London".
Proof.
  split; [reflexivity|].
  split.
  { intros w (a & w0 & -> & Ha)%regional_suffix_shape. repeat split.
    - intros q. now apply re_sub_end_suffix.
    - intros q. now apply re_sub_end_suffix_nl.
    - intros s. now apply re_sub_end_other. }
  split; [intros r; now apply re_sub_lit_head|].
  split; [intros c r H; now apply re_sub_no_match_head|].
  split; [intros q r H; now apply (split_head_app comma)|].
  repeat split; reflexivity.
Qed.

Lemma clean_location_steps_witness :
  re_sub (LitEnd ", UK") "Bristol" = "Bristol" /\
  split_head comma ("Leeds" +:+ "," +:+ " West Yorkshire") = "Leeds".
Proof.
  destruct clean_location_steps as (_ & Hsuf & _ & _ & Hsplit & _).
  split.
  - apply (Hsuf ", UK"); [simpl; tauto | reflexivity | reflexivity].
  - apply Hsplit. reflexivity.
Defined.

(** C6 as the specification words it fails: "Greater " in the middle of the
    text is deleted too. *)
Lemma clean_location_not_leading_only :
  clean_location "Inner Greater London" = "Inner London" /\
  clean_location_spec "Inner Greater London" = "Inner Greater London" /\
  clean_location "Inner Greater London" <> clean_location_spec "Inner Greater London".
Proof. repeat split; try reflexivity. vm_compute. discriminate. Qed.

(** C8, as amended: cleaning a cleaned location changes nothing provided the
    cleaned location does not end in " Area" (with or without a final line
    break) and has no "Greater " in it. *)
Theorem clean_location_idempotent_when_settled x :
  ends_with " Area" (clean_location x) = false ->
  ends_with (" Area" +:+ line_break) (clean_location x) = false ->
  contains "Greater " (clean_location x) = false ->
  clean_location (clean_location x) = clean_location x.
Proof.
  pose proof (clean_location_no_comma x) as Hc.
  set (y := clean_location x) in *. intros H1 H2 H3.
  unfold clean_location at 1.
  rewrite (re_sub_end_no_comma "," " England, United Kingdom" y);
    [| reflexivity | exact Hc].
  rewrite (re_sub_end_no_comma "," " United Kingdom" y);
    [| reflexivity | exact Hc].
  rewrite (re_sub_end_no_comma "," " UK" y);
    [| reflexivity | exact Hc].
  rewrite (re_sub_end_no_comma " " "Area, United Kingdom" y);
    [| reflexivity | exact Hc].
  rewrite (re_sub_end_other " " "Area" y H1 H2).
  rewrite (re_sub_lit_absent _ _ H3).
  now rewrite Hc.
Qed.

Lemma clean_location_idempotent_when_settled_witness :
  clean_location (clean_location "Greater Manchester Area") =
  clean_location "Greater Manchester Area".
Proof.
  apply (clean_location_idempotent_when_settled "Greater Manchester Area");
    reflexivity.
Defined.

(** [re.sub] with an empty replacement, [strip] and the comma cut never
    lengthen a text, and deleting a literal that occurs shortens it. *)
Lemma re_sub_go_length p k s : String.length (re_sub_go p k s) <= String.length s.
Proof.
  revert k. induction s as [|c s IH]; intros k; [reflexivity|].
  cbn [re_sub_go]. destruct k as [|k].
  - destruct (match_here p (String c s)).
    + specialize (IH (String.length (pat_lit p) - 1)). cbn [String.length]. lia.
    + specialize (IH 0). cbn [String.length]. lia.
  - specialize (IH k). cbn [String.length]. lia.
Qed.

Lemma re_sub_length p s : String.length (re_sub p s) <= String.length s.
Proof. apply re_sub_go_length. Qed.

Lemma re_sub_lit_shorter w s :
  w <> "" -> contains w s = true ->
  String.length (re_sub (Lit w) s) < String.length s.
Proof.
  intros Hne. unfold re_sub. induction s as [|c s IH]; intros H.
  - destruct w; [congruence | discriminate].
  - cbn [re_sub_go match_here]. cbn [contains] in H.
    destruct (starts_with w (String c s)).
    + pose proof (re_sub_go_length (Lit w) (String.length (pat_lit (Lit w)) - 1) s).
      cbn [String.length]. lia.
    + cbn [orb] in H. specialize (IH H). cbn [String.length]. lia.
Qed.

Lemma lstrip_length s : String.length (lstrip s) <= String.length s.
Proof.
  induction s as [|c s IH]; [reflexivity|]. cbn [lstrip].
  destruct (is_space c); cbn [String.length]; lia.
Qed.

Lemma rstrip_length s : String.length (rstrip s) <= String.length s.
Proof.
  induction s as [|c s IH]; [reflexivity|]. cbn [rstrip].
  destruct (rstrip s) as [|d t].
  - destruct (is_space c); cbn [String.length]; lia.
  - cbn [String.length] in *. lia.
Qed.

Lemma split_head_length c s : String.length (split_head c s) <= String.length s.
Proof.
  induction s as [|b s IH]; [reflexivity|]. cbn [split_head].
  destruct (Ascii.eqb b c); cbn [String.length]; lia.
Qed.

(** The condition of the amended C8 is also necessary: a cleaned location
    that a second pass leaves alone neither ends in " Area" nor has
    "Greater " in it. *)
Lemma clean_location_idempotent_only_when_settled x :
  clean_location (clean_location x) = clean_location x ->
  ends_with " Area" (clean_location x) = false /\
  ends_with (" Area" +:+ line_break) (clean_location x) = false /\
  contains "Greater " (clean_location x) = false.
Proof.
  pose proof (clean_location_no_comma x) as Hc.
  set (y := clean_location x) in *. intros Hfix.
  apply (f_equal String.length) in Hfix. unfold clean_location in Hfix.
  rewrite (re_sub_end_no_comma "," " England, United Kingdom" y) in Hfix;
    [| reflexivity | exact Hc].
  rewrite (re_sub_end_no_comma "," " United Kingdom" y) in Hfix;
    [| reflexivity | exact Hc].
  rewrite (re_sub_end_no_comma "," " UK" y) in Hfix;
    [| reflexivity | exact Hc].
  rewrite (re_sub_end_no_comma " " "Area, United Kingdom" y) in Hfix;
    [| reflexivity | exact Hc].
  set (z1 := re_sub (LitEnd " Area") y) in *.
  set (z2 := re_sub (Lit "Greater ") z1) in *.
  assert (H1 : String.length z1 <= String.length y) by apply re_sub_length.
  assert (H2 : String.length z2 <= String.length z1) by apply re_sub_length.
  assert (H3 : String.length y <= String.length z2).
  { rewrite <- Hfix. destruct (contains "," z2); [|lia].
    unfold strip.
    pose proof (rstrip_length (lstrip (split_head comma z2))).
    pose proof (lstrip_length (split_head comma z2)).
    pose proof (split_head_length comma z2). lia. }
  assert (Ha : ends_with " Area" y = false).
  { apply not_true_iff_false. intros [q Hq]%ends_with_spec.
    subst z1. rewrite Hq, (re_sub_end_suffix " " "Area") in H1, H2
      by now apply not_newline.
    rewrite Hq, string_length_app in H3. cbn [String.length] in H3. lia. }
  assert (Hb : ends_with (" Area" +:+ line_break) y = false).
  { apply not_true_iff_false. intros [q Hq]%ends_with_spec.
    subst z1. rewrite Hq, (re_sub_end_suffix_nl " " "Area") in H1, H2
      by now apply not_newline.
    rewrite Hq, !string_length_app in H3. rewrite string_length_app in H2.
    unfold line_break in *. cbn [String.length] in *. lia. }
  split; [exact Ha|]. split; [exact Hb|].
  apply not_true_iff_false. intros Hg.
  pose proof (re_sub_end_other " " "Area" y Ha Hb) as E.
  subst z2 z1. rewrite E in H3.
  pose proof (re_sub_lit_shorter "Greater " y ltac:(discriminate) Hg). lia.
Qed.

(** C8 as stated fails: a location that ends in " Area" before its first
    comma is cleaned to a text that a second pass shortens again. *)
Lemma clean_location_not_idempotent :
  clean_location "Leeds Area, West Yorkshire" = "Leeds Area" /\
  clean_location (clean_location "Leeds Area, West Yorkshire") = "Leeds" /\
  clean_location (clean_location "Leeds Area, West Yorkshire") <>
  clean_location "Leeds Area, West Yorkshire".
Proof. repeat split; try reflexivity. vm_compute. discriminate. Qed.

End CleanLocation.

(** ** The recency predicate *)

Lemma is_recent_job_any_in t : is_recent_job t = any_in recent_phrases (lower t).
Proof.
  unfold is_recent_job, any_in, recent_phrases. cbn [existsb].
  repeat (match goal with |- context [contains ?w ?s] => destruct (contains w s) end;
          cbn [orb]; try reflexivity).
Qed.

(** The predicate is true exactly when the lower-cased text has one of the six
    phrases somewhere inside it. *)
Lemma is_recent_job_spec t :
  is_recent_job t = true <->
  exists w, In w recent_phrases /\ occurs_in w (lower t).
Proof. rewrite is_recent_job_any_in. apply any_in_spec. Qed.

Lemma is_recent_job_examples :
  is_recent_job "2 days ago" = true /\
  is_recent_job "4 days ago" = false /\
  is_recent_job "" = false.
Proof. repeat split; reflexivity. Qed.

(** C1: the recency predicate is meant to accept postings of the last three
    days only, yet it returns true on "12 days ago" and on "13 days ago":
    each has "2 days ago" or "3 days ago" inside it. *)
Theorem is_recent_job_accepts_older :
  is_recent_job "12 days ago" = true /\
  is_recent_job "13 days ago" = true /\
  occurs_in "2 days ago" (lower "12 days ago").
Proof.
  repeat split; try reflexivity.
  exists "1", "". reflexivity.
Qed.

(** ** The experience classifier *)

(** C7: on the lower-cased description, a senior keyword gives Senior Level;
    failing that an entry keyword gives Entry Level; failing both the level
    is Mid Level; so a text with both "senior" and "graduate" is Senior
    Level. *)
Theorem determine_experience_level_tiers (job_description : string) :
  let text := lower job_description in
  ((exists w, In w senior_words /\ occurs_in w text) ->
   determine_experience_level job_description = "Senior Level") /\
  ((forall w, In w senior_words -> ~ occurs_in w text) ->
   (exists w, In w entry_words /\ occurs_in w text) ->
   determine_experience_level job_description = "Entry Level") /\
  ((forall w, In w senior_words -> ~ occurs_in w text) ->
   (forall w, In w entry_words -> ~ occurs_in w text) ->
   determine_experience_level job_description = "Mid Level") /\
  (occurs_in "senior" text -> occurs_in "graduate" text ->
   determine_experience_level job_description = "Senior Level").
Proof.
  intros text. unfold determine_experience_level. fold text.
  repeat split.
  - intros H%any_in_spec. now rewrite H.
  - intros Hs%any_in_false He%any_in_spec. now rewrite Hs, He.
  - intros Hs%any_in_false He%any_in_false. now rewrite Hs, He.
  - intros Hs _.
    assert (any_in senior_words text = true) as ->; [|reflexivity].
    apply any_in_spec. exists "senior". split; [now left | exact Hs].
Qed.

Lemma determine_experience_level_tiers_witness :
  determine_experience_level "Senior engineer, graduate scheme mentor" = "Senior Level" /\
  determine_experience_level "Graduate developer" = "Entry Level" /\
  determine_experience_level "Python developer" = "Mid Level".
Proof.
  split; [|split].
  - apply (determine_experience_level_tiers "Senior engineer, graduate scheme mentor").
    + exists "", " engineer, graduate scheme mentor". reflexivity.
    + exists "senior engineer, ", " scheme mentor". reflexivity.
  - apply (determine_experience_level_tiers "Graduate developer").
    + apply any_in_false. reflexivity.
    + exists "graduate". split; [simpl; tauto|]. exists "", " developer". reflexivity.
  - apply (determine_experience_level_tiers "Python developer").
    + apply any_in_false. reflexivity.
    + apply any_in_false. reflexivity.
Defined.

(** ** The card loop and the page loop *)

Section Scraping.

Variable w : world.

Implicit Types (c : card) (r j : job) (cards : list card)
  (acc : list job) (reqs : list (string * nat)) (t : string).

Lemma bind_ok {A B} (m : outcome A) (k : A -> outcome B) (b : B) :
  bind m k = Ok b -> exists a, m = Ok a /\ k a = Ok b.
Proof. destruct m as [a|msg]; [eauto | discriminate]. Qed.

(** What a successful extraction puts in the record. *)
Lemma extract_job_fields t c r :
  extract_job w t c = Ok r ->
  Category r = t /\
  Posted_Date r = match posted_date_el c with
                    | Some d => strip d
                    | None => "Recently"
                    end.
Proof.
  unfold extract_job. intros H.
  repeat (apply bind_ok in H as (? & _ & H)).
  injection H as <-. split; reflexivity.
Qed.




Lemma scan_cards_stale_from t cards st :
  existsb passes_recency cards = false -> fold_left (scan_card w t) cards st = st.
Proof.
  revert st. induction cards as [|c cards IH]; intros st H; [reflexivity|].
  cbn [existsb] in H. apply orb_false_iff in H as [Hc H].
  cbn [fold_left]. unfold scan_card at 2. rewrite Hc. cbn [negb]. now apply IH.
Qed.

(** A page with no card past the recency check adds nothing. *)
Lemma scan_cards_stale t cards acc :
  existsb passes_recency cards = false -> scan_cards w t cards acc = (false, acc).
Proof. intros H. unfold scan_cards. now apply scan_cards_stale_from. Qed.

(** Where the records of a page come from. *)
Lemma scan_cards_records_from t cards st r :
  In r (snd (fold_left (scan_card w t) cards st)) ->
  In r (snd st) \/
  exists c, In c cards /\ passes_recency c = true /\ extract_job w t c = Ok r.
Proof.
  revert st. induction cards as [|c cards IH]; intros st H; [now left|].
  cbn [fold_left] in H. apply IH in H as [H | (c' & Hin & Hp & Hx)].
  - unfold scan_card in H. destruct (passes_recency c) eqn:Hp; cbn [negb] in H.
    + destruct (extract_job w t c) as [j|msg] eqn:Hx; cbn [snd] in H.
      * apply in_app_iff in H as [H | [<- | []]]; [now left|].
        right. exists c. split; [now left | now split].
      * now left.
    + now left.
  - right. exists c'. split; [now right | now split].
Qed.

Lemma scan_cards_records t cards acc r :
  In r (snd (scan_cards w t cards acc)) ->
  In r acc \/
  exists c, In c cards /\ passes_recency c = true /\ extract_job w t c = Ok r.
Proof. apply scan_cards_records_from. Qed.

(** Every record the page loop returns was there before or was extracted
    from a card, past the recency check, of a page of this term. *)
Lemma page_loop_records t budget page k acc reqs r :
  In r (fst (page_loop w t budget page k acc reqs)) ->
  In r acc \/
  exists c, extracted_from w t c r /\ passes_recency c = true.
Proof.
  revert page k acc reqs.
  induction budget as [|budget IH]; intros page k acc reqs H; [now left|].
  cbn [page_loop] in H.
  destruct (search_page w t page) as [msg|status cards] eqn:Hf; [now left|].
  destruct (negb (status =? 200)%Z); [now left|].
  destruct cards as [|c0 cards]; [now left|].
  destruct (scan_cards w t (c0 :: cards) acc) as [found acc'] eqn:Hs.
  assert (Hacc' : In r acc' -> In r acc \/
            exists c, extracted_from w t c r /\ passes_recency c = true).
  { intros Hin. change acc' with (snd (found, acc')) in Hin. rewrite <- Hs in Hin.
    apply scan_cards_records in Hin as [Hin | (c & Hc & Hp & Hx)]; [now left|].
    right. exists c. split; [|exact Hp]. now exists page, status, (c0 :: cards). }
  destruct found; cbn [negb] in H.
  - apply IH in H as [H | H]; auto.
  - destruct (2 <=? S k)%nat; [auto|]. apply IH in H as [H | H]; auto.
Qed.


Lemma page_loop_stale t budget page k acc reqs :
  stale_page w t page ->
  page_loop w t (S budget) page k acc reqs =
  if (2 <=? S k)%nat then (acc, (reqs ++ [(t, page)])%list)
  else page_loop w t budget (S page) (S k) acc (reqs ++ [(t, page)]).
Proof.
  intros (cards & Hf & Hne & Hp). cbn [page_loop]. rewrite Hf.
  change (200 =? 200)%Z with true. cbn [negb].
  destruct cards as [|c0 rest]; [congruence|].
  now rewrite (scan_cards_stale t _ acc Hp).
Qed.

(** C3, as amended: for a term whose first two pages have cards but none
    past the recency check, the loop as shipped, with its cap of one page per
    term, asks for page 0 only and adds no record; run with a cap of two or
    more pages it asks for pages 0 and 1, stops on the streak of two, and adds
    no record. *)
Theorem stale_term_stops t acc reqs :
  stale_page w t 0 -> stale_page w t 1 ->
  page_loop w t max_pages_per_category 0 0 acc reqs =
    (acc, (reqs ++ [(t, 0)])%list) /\
  (forall max_pages, 2 <= max_pages ->
     page_loop w t max_pages 0 0 acc reqs =
       (acc, (reqs ++ [(t, 0); (t, 1)])%list)).
Proof.
  intros H0 H1. split.
  - unfold max_pages_per_category. now rewrite page_loop_stale.
  - intros [|[|n]] Hn; [lia | lia |].
    rewrite page_loop_stale by exact H0. cbn [Nat.leb].
    rewrite page_loop_stale by exact H1. cbn [Nat.leb].
    now rewrite <- List.app_assoc.
Qed.

Lemma scrape_with_records max_pages terms init0 r :
  In r (fst (fold_left (scrape_term w max_pages) terms init0)) ->
  In r (fst init0) \/
  exists t c, In t terms /\ extracted_from w t c r /\ passes_recency c = true.
Proof.
  revert init0. induction terms as [|t terms IH]; intros init0 H; [now left|].
  cbn [fold_left] in H. apply IH in H as [H | (t' & c & Ht & Hx)].
  - unfold scrape_term in H. apply page_loop_records in H as [H | (c & Hx)].
    + now left.
    + right. exists t, c. split; [now left | exact Hx].
  - right. exists t', c. split; [now right | exact Hx].
Qed.

(** C4, as amended: every record of the run's output was extracted from a
    card of a result page of one of the three terms, and that card either
    had no posted-date element, in which case the record says "Recently", or
    had a posted-date text that [is_recent_job] accepted, which the record
    carries. *)
Theorem emitted_records_recency r :
  In r (scrape_linkedin_jobs w) ->
  exists t c,
    In t it_jobs /\ extracted_from w t c r /\
    match posted_date_el c with
    | Some d => is_recent_job (strip d) = true /\ Posted_Date r = strip d
    | None => Posted_Date r = "Recently"
    end.
Proof.
  unfold scrape_linkedin_jobs, scrape_with.
  intros [[] | (t & c & Ht & Hx & Hp)]%scrape_with_records.
  exists t, c. split; [exact Ht|]. split; [exact Hx|].
  destruct Hx as (page & status & cards & _ & _ & Hx).
  apply extract_job_fields in Hx as [_ Hd]. unfold passes_recency in Hp.
  destruct (posted_date_el c); [now split | exact Hd].
Qed.


End Scraping.

(** ** The geocoding cache *)

Section Geocoding.

Implicit Types (st : geo_state) (location loc : string) (v : coords)
  (jobs : list job).

Lemma empty_eqb location : location <> "" -> String.eqb location "" = false.
Proof. now intros H%String.eqb_neq. Qed.

(** A cached location is answered from the cache: the state, and with it the
    list of requests, is unchanged, whatever the service would say. *)
Lemma get_coordinates_hit w location st v :
  location <> "" -> geocoding_cache st !! location = Some v ->
  get_coordinates w location st = (Ok v, st).
Proof.
  intros Hne Hc. unfold get_coordinates. now rewrite (empty_eqb _ Hne), Hc.
Qed.

(** The [try] block leaves the state in one of two shapes: the request was
    recorded and nothing stored, or the request was recorded and the value it
    returns was stored under the location. *)
Lemma lookup_block_shape w location st :
  let '(res, st') := lookup_block w location st in
  (st' = record_lookup location st \/
   exists v, res = Ok v /\ st' = store location v (record_lookup location st)).
Proof.
  unfold lookup_block.
  destruct (geocode w _ _) as [msg|code [msg|[|r rs]]]; try (now left);
    destruct (code =? 200)%Z; try (now left); try (right; eauto; fail).
  destruct (parse_coords r) as [[lat lon]|msg]; [right; eauto | now left].
Qed.

Lemma get_coordinates_never_raises w location st :
  exists v, fst (get_coordinates w location st) = Ok v.
Proof.
  unfold get_coordinates. destruct (String.eqb location ""); [eauto|].
  destruct (geocoding_cache st !! location); [eauto|].
  destruct (lookup_block w location st) as [[v|msg] st']; eauto.
Qed.

(** One call keeps every cache entry and asks the service only about a
    location that was not cached. *)
Lemma get_coordinates_step w location st :
  let st' := snd (get_coordinates w location st) in
  (forall loc v, geocoding_cache st !! loc = Some v ->
                 geocoding_cache st' !! loc = Some v) /\
  exists extra, lookups st' = (lookups st ++ extra)%list /\
                forall loc, In loc extra -> geocoding_cache st !! loc = None.
Proof.
  unfold get_coordinates. destruct (String.eqb location "").
  { split; [auto|]. exists []. split; [now rewrite app_nil_r | intros ? []]. }
  destruct (geocoding_cache st !! location) eqn:Hc.
  { split; [auto|]. exists []. split; [now rewrite app_nil_r | intros ? []]. }
  pose proof (lookup_block_shape w location st) as Hs.
  destruct (lookup_block w location st) as [res st1].
  assert (Hst : (forall loc v, geocoding_cache st !! loc = Some v ->
                   geocoding_cache st1 !! loc = Some v) /\
                lookups st1 = (lookups st ++ [location])%list).
  { destruct Hs as [-> | (v & _ & ->)]; split; try reflexivity; cbn; auto.
    intros loc v' Hloc. rewrite lookup_insert_ne; [exact Hloc | congruence]. }
  destruct Hst as [Hmono Hlook].
  assert (snd (match res with
               | Ok v => (Ok v, st1)
               | Raised _ => (Ok (None, None), st1)
               end) = st1) as -> by now destruct res.
  split; [exact Hmono|]. exists [location]. split; [exact Hlook|].
  intros loc [<- | []]. exact Hc.
Qed.

(** The same for the enrichment loop of a writer, which moreover pairs each
    record whose location was cached at the start with the cached value. *)
Lemma geocode_jobs_step w jobs st :
  let st' := snd (geocode_jobs w jobs st) in
  (forall loc v, geocoding_cache st !! loc = Some v ->
                 geocoding_cache st' !! loc = Some v) /\
  (exists extra, lookups st' = (lookups st ++ extra)%list /\
                 forall loc, In loc extra -> geocoding_cache st !! loc = None) /\
  (forall rows j c v, fst (geocode_jobs w jobs st) = Ok rows -> In (j, c) rows ->
     Location j <> "" -> geocoding_cache st !! Location j = Some v -> c = v).
Proof.
  revert st. induction jobs as [|j0 jobs IH]; intros st.
  { cbn. split; [auto|]. split.
    - exists []. split; [now rewrite app_nil_r | intros ? []].
    - intros rows j c v [= <-] []. }
  cbn [geocode_jobs].
  pose proof (get_coordinates_step w (Location j0) st) as (Hm1 & ex1 & Hl1 & Hn1).
  pose proof (get_coordinates_never_raises w (Location j0) st) as [c0 Hc0].
  pose proof (fun v Hne Hc => get_coordinates_hit w (Location j0) st v Hne Hc) as Hhit.
  destruct (get_coordinates w (Location j0) st) as [res st1].
  cbn [fst snd] in *. subst res.
  specialize (IH st1) as (Hm2 & (ex2 & Hl2 & Hn2) & Hrows).
  destruct (geocode_jobs w jobs st1) as [[rows|msg] st2]; cbn [fst snd] in *.
  - split; [auto|]. split.
    + exists (ex1 ++ ex2)%list. split; [now rewrite Hl2, Hl1, <- List.app_assoc|].
      intros loc [H | H]%in_app_iff; [auto|].
      destruct (geocoding_cache st !! loc) as [v|] eqn:E; [|reflexivity].
      apply Hm1 in E. rewrite (Hn2 loc H) in E. discriminate.
    + intros rows' j c v [= <-] [[= <- <-] | Hin] Hne Hc.
      * specialize (Hhit v Hne Hc). now injection Hhit.
      * eapply Hrows; eauto.
  - split; [auto|]. split.
    + exists (ex1 ++ ex2)%list. split; [now rewrite Hl2, Hl1, <- List.app_assoc|].
      intros loc [H | H]%in_app_iff; [auto|].
      destruct (geocoding_cache st !! loc) as [v|] eqn:E; [|reflexivity].
      apply Hm1 in E. rewrite (Hn2 loc H) in E. discriminate.
    + intros rows' j c v [=].
Qed.

(** C2, as amended: [get_coordinates] never raises.  When the service
    answers a miss with a status other than 200, or with status 200 and no
    result, the negative sentinel is returned and stored, and a second call
    for that location is answered from the cache with no request.  When the
    look-up raises, be it the request, the decoding of the body, or the
    reading of a coordinate of the first result, the sentinel is returned but
    nothing is stored, so the next call for that location asks the service
    again.  Any cached value, the sentinel included, is returned unchanged
    with no request. *)
Theorem get_coordinates_failures w location st :
  (exists v, fst (get_coordinates w location st) = Ok v) /\
  (forall code body,
     location <> "" -> geocoding_cache st !! location = None ->
     geocode w (length (lookups st)) (location +:+ country_suffix)
       = LookupResponse code body ->
     code <> 200%Z \/ body = BodyResults [] ->
     let st' := snd (get_coordinates w location st) in
     fst (get_coordinates w location st) = Ok (None, None) /\
     geocoding_cache st' !! location = Some (None, None) /\
     forall w', get_coordinates w' location st' = (Ok (None, None), st')) /\
  (forall msg,
     location <> "" -> geocoding_cache st !! location = None ->
     geocode w (length (lookups st)) (location +:+ country_suffix)
       = LookupRaises msg \/
     geocode w (length (lookups st)) (location +:+ country_suffix)
       = LookupResponse 200 (BodyInvalid msg) ->
     let st' := snd (get_coordinates w location st) in
     fst (get_coordinates w location st) = Ok (None, None) /\
     geocoding_cache st' = geocoding_cache st /\
     forall w', lookups (snd (get_coordinates w' location st'))
                = (lookups st ++ [location; location])%list) /\
  (forall r rs,
     location <> "" -> geocoding_cache st !! location = None ->
     geocode w (length (lookups st)) (location +:+ country_suffix)
       = LookupResponse 200 (BodyResults (r :: rs)) ->
     res_lat r = None \/ res_lon r = None ->
     let st' := snd (get_coordinates w location st) in
     fst (get_coordinates w location st) = Ok (None, None) /\
     geocoding_cache st' = geocoding_cache st /\
     forall w', lookups (snd (get_coordinates w' location st'))
                = (lookups st ++ [location; location])%list) /\
  (forall v w',
     location <> "" -> geocoding_cache st !! location = Some v ->
     get_coordinates w' location st = (Ok v, st)).
Proof.
  assert (Hagain : forall w',
            location <> "" -> geocoding_cache st !! location = None ->
            lookups (snd (get_coordinates w' location (record_lookup location st)))
            = (lookups st ++ [location; location])%list).
  { intros w' Hne Hc. unfold get_coordinates. rewrite (empty_eqb _ Hne).
    cbn [geocoding_cache record_lookup]. rewrite Hc.
    pose proof (lookup_block_shape w' location (record_lookup location st)) as Hs.
    destruct (lookup_block w' location (record_lookup location st)) as [res st1].
    assert (lookups st1 = (lookups st ++ [location; location])%list) as Hl.
    { destruct Hs as [-> | (v & _ & ->)]; cbn; now rewrite <- List.app_assoc. }
    now destruct res. }
  split; [apply get_coordinates_never_raises|].
  split; [|split; [|split]].
  - intros code body Hne Hc Hg Hfail.
    assert (Hgo : get_coordinates w location st =
                  (Ok (None, None),
                   store location (None, None) (record_lookup location st))).
    { unfold get_coordinates, lookup_block. rewrite (empty_eqb _ Hne), Hc, Hg.
      destruct (code =? 200)%Z eqn:E; [|reflexivity].
      apply Z.eqb_eq in E. destruct Hfail as [H | ->]; [contradiction | reflexivity]. }
    rewrite Hgo. cbn [fst snd]. split; [reflexivity|].
    assert (Hs : geocoding_cache (store location (None, None) (record_lookup location st))
                   !! location = Some (None, None)) by apply lookup_insert_eq.
    split; [exact Hs|]. intros w'. now apply get_coordinates_hit.
  - intros msg Hne Hc Hg.
    assert (Hgo : get_coordinates w location st =
                  (Ok (None, None), record_lookup location st)).
    { unfold get_coordinates, lookup_block. rewrite (empty_eqb _ Hne), Hc.
      destruct Hg as [-> | ->]; reflexivity. }
    rewrite Hgo. cbn [fst snd]. split; [reflexivity|]. split; [reflexivity|].
    intros w'. now apply Hagain.
  - intros r rs Hne Hc Hg Hbad.
    assert (Hgo : get_coordinates w location st =
                  (Ok (None, None), record_lookup location st)).
    { unfold get_coordinates, lookup_block, parse_coords.
      rewrite (empty_eqb _ Hne), Hc, Hg. change (200 =? 200)%Z with true.
      destruct Hbad as [-> | ->]; [reflexivity|]. now destruct (res_lat r). }
    rewrite Hgo. cbn [fst snd]. split; [reflexivity|]. split; [reflexivity|].
    intros w'. now apply Hagain.
  - intros v w' Hne Hc. now apply get_coordinates_hit.
Qed.

(** What a writer's pass does to the state: [save_to_s3] and
    [save_to_postgres] either leave it alone or run the enrichment loop. *)
Lemma save_to_s3_state w jobs st :
  snd (save_to_s3 w jobs st) = st \/
  snd (save_to_s3 w jobs st) = snd (geocode_jobs w jobs st).
Proof.
  unfold save_to_s3. destruct jobs as [|j jobs]; [now left|]. right.
  destruct (geocode_jobs w (j :: jobs) st) as [[rows|msg] st1]; [|reflexivity].
  now destruct (upload w).
Qed.

Lemma job_data_cons w j jobs st :
  job_data w (j :: jobs) st =
  let '(res, st1) := get_coordinates w (Location j) st in
  match res, strptime (Date_Scraped j) with
  | Raised msg, _ => (Raised msg, st1)
  | Ok _, Raised msg => (Raised msg, st1)
  | Ok c, Ok t =>
      let '(rest, st2) := job_data w jobs st1 in
      match rest with
      | Ok rows => (Ok ((j, c, t) :: rows), st2)
      | Raised msg => (Raised msg, st2)
      end
  end.
Proof.
  cbn [job_data].
  destruct (get_coordinates w (Location j) st) as [[c|msg] st1]; [|reflexivity].
  destruct (strptime (Date_Scraped j)); [|reflexivity].
  now destruct (job_data w jobs st1) as [[rows|msg] st2].
Qed.

(** The loop of [save_to_postgres] treats the cache as the loop of
    [save_to_s3] does, also when [strptime] cuts it short. *)
Lemma job_data_step w jobs st :
  let st' := snd (job_data w jobs st) in
  (forall loc v, geocoding_cache st !! loc = Some v ->
                 geocoding_cache st' !! loc = Some v) /\
  (exists extra, lookups st' = (lookups st ++ extra)%list /\
                 forall loc, In loc extra -> geocoding_cache st !! loc = None) /\
  (forall rows j c t v, fst (job_data w jobs st) = Ok rows ->
     In (j, c, t) rows ->
     Location j <> "" -> geocoding_cache st !! Location j = Some v -> c = v).
Proof.
  revert st. induction jobs as [|j0 jobs IH]; intros st.
  { cbn. split; [auto|]. split.
    - exists []. split; [now rewrite app_nil_r | intros ? []].
    - intros rows j c t v [= <-] []. }
  rewrite job_data_cons.
  pose proof (get_coordinates_step w (Location j0) st) as (Hm1 & ex1 & Hl1 & Hn1).
  pose proof (get_coordinates_never_raises w (Location j0) st) as [c0 Hc0].
  pose proof (fun v Hne Hc => get_coordinates_hit w (Location j0) st v Hne Hc) as Hhit.
  destruct (get_coordinates w (Location j0) st) as [res st1].
  cbn [fst snd] in *. subst res.
  assert (Hcut : forall msg : string,
            (forall loc v, geocoding_cache st !! loc = Some v ->
                           geocoding_cache st1 !! loc = Some v) /\
            (exists extra, lookups st1 = (lookups st ++ extra)%list /\
               forall loc, In loc extra -> geocoding_cache st !! loc = None)).
  { intros _. split; [exact Hm1 | now exists ex1]. }
  destruct (strptime (Date_Scraped j0)) as [t0|msg]; cbn [fst snd].
  2:{ destruct (Hcut msg) as [H1 H2]. split; [exact H1|]. split; [exact H2|].
      intros ? ? ? ? ? [=]. }
  specialize (IH st1) as (Hm2 & (ex2 & Hl2 & Hn2) & Hrows).
  assert (Hext : exists extra,
            lookups (snd (job_data w jobs st1)) = (lookups st ++ extra)%list /\
            forall loc, In loc extra -> geocoding_cache st !! loc = None).
  { exists (ex1 ++ ex2)%list. split; [now rewrite Hl2, Hl1, <- List.app_assoc|].
    intros loc [H | H]%in_app_iff; [auto|].
    destruct (geocoding_cache st !! loc) as [v|] eqn:E; [|reflexivity].
    apply Hm1 in E. rewrite (Hn2 loc H) in E. discriminate. }
  destruct (job_data w jobs st1) as [[rows|msg] st2]; cbn [fst snd] in *.
  - split; [auto|]. split; [exact Hext|].
    intros rows' j c t v [= <-] [[= <- <- <-] | Hin] Hne Hc.
    + specialize (Hhit v Hne Hc). now injection Hhit.
    + eapply Hrows; eauto.
  - split; [auto|]. split; [exact Hext|]. intros ? ? ? ? ? [=].
Qed.

Lemma save_to_postgres_state w jobs st :
  snd (save_to_postgres w jobs st) = st \/
  snd (save_to_postgres w jobs st) = snd (job_data w jobs st).
Proof.
  unfold save_to_postgres. destruct jobs as [|j jobs]; [now left|].
  destruct (pg_connect w); [|now left].
  destruct (pg_schema w); [|now left]. right.
  destruct (job_data w (j :: jobs) st) as [[rows|msg] st1]; [|reflexivity].
  now destruct (pg_insert w).
Qed.

(** C10: the state [save_to_s3] leaves is the state [save_to_postgres]
    starts from, and for every location cached when the first writer is done
    the second writer keeps the entry, sends no request for it, is given the
    cached value by [get_coordinates], and pairs every record at that
    location with the cached value, in the loop of either writer. *)
Theorem writers_share_cache w jobs st0 loc v :
  let st1 := snd (save_to_s3 w jobs st0) in
  let st2 := snd (save_to_postgres w jobs st1) in
  geocoding_cache st1 !! loc = Some v ->
  geocoding_cache st2 !! loc = Some v /\
  (exists extra, lookups st2 = (lookups st1 ++ extra)%list /\ ~ In loc extra) /\
  (loc <> "" -> forall w', get_coordinates w' loc st1 = (Ok v, st1)) /\
  (forall rows j c, fst (geocode_jobs w jobs st1) = Ok rows -> In (j, c) rows ->
     Location j = loc -> loc <> "" -> c = v) /\
  (forall rows j c t, fst (job_data w jobs st1) = Ok rows -> In (j, c, t) rows ->
     Location j = loc -> loc <> "" -> c = v).
Proof.
  intros st1 st2 Hc.
  pose proof (geocode_jobs_step w jobs st1) as (_ & _ & Hrows).
  pose proof (job_data_step w jobs st1) as (Hm & (extra & Hl & Hn) & Hrows').
  split; [|split; [|split; [|split]]].
  - subst st2. destruct (save_to_postgres_state w jobs st1) as [-> | ->]; auto.
  - subst st2. destruct (save_to_postgres_state w jobs st1) as [-> | ->].
    + exists []. split; [now rewrite app_nil_r | intros []].
    + exists extra. split; [exact Hl|]. intros Hin. apply Hn in Hin. congruence.
  - intros Hne w'. now apply get_coordinates_hit.
  - intros rows j c Hr Hin <- Hne. eapply Hrows; eauto.
  - intros rows j c t Hr Hin <- Hne. eapply Hrows'; eauto.
Qed.

End Geocoding.

(** ** The handler *)

Section Handler.

Implicit Types (w : world) (jobs : list job) (t c : string)
  (m : gmap string nat).

Lemma scan_card_linear w t b (acc : list job) (x : card) :
  scan_card w t (b, acc) x =
  (fst (scan_card w t (b, []) x), (acc ++ snd (scan_card w t (b, []) x))%list).
Proof.
  unfold scan_card. destruct (negb (passes_recency x)); cbn [fst snd].
  - now rewrite app_nil_r.
  - destruct (extract_job w t x); cbn [fst snd]; [reflexivity | now rewrite app_nil_r].
Qed.

Lemma scan_cards_linear_from w t (cards : list card) b (acc : list job) :
  fold_left (scan_card w t) cards (b, acc) =
  (fst (fold_left (scan_card w t) cards (b, [])),
   (acc ++ snd (fold_left (scan_card w t) cards (b, [])))%list).
Proof.
  revert b acc. induction cards as [|x cards IH]; intros b acc; cbn [fold_left].
  - cbn. now rewrite app_nil_r.
  - rewrite scan_card_linear.
    destruct (scan_card w t (b, []) x) as [b1 d1]. cbn [fst snd].
    rewrite (IH b1 (acc ++ d1)%list), (IH b1 d1). cbn [fst snd].
    now rewrite List.app_assoc.
Qed.

(** The page loop only appends to what it is given. *)
Lemma page_loop_linear w t budget page k (acc : list job)
    (reqs : list (string * nat)) :
  page_loop w t budget page k acc reqs =
  ((acc ++ fst (page_loop w t budget page k [] []))%list,
   (reqs ++ snd (page_loop w t budget page k [] []))%list).
Proof.
  revert page k acc reqs.
  induction budget as [|budget IH]; intros page k acc reqs; cbn [page_loop].
  { cbn. now rewrite !app_nil_r. }
  destruct (search_page w t page) as [msg|status cards];
    [cbn; now rewrite app_nil_r|].
  destruct (negb (status =? 200)%Z); [cbn; now rewrite app_nil_r|].
  destruct cards as [|x cards]; [cbn; now rewrite app_nil_r|].
  unfold scan_cards. rewrite (scan_cards_linear_from w t (x :: cards) false acc).
  destruct (fold_left (scan_card w t) (x :: cards) (false, [])) as [found d].
  cbn [fst snd app].
  destruct found; cbn [negb].
  - rewrite (IH _ _ (acc ++ d)%list), (IH _ _ d [(t, page)]). cbn [fst snd].
    now rewrite !List.app_assoc.
  - destruct (2 <=? S k)%nat; [reflexivity|].
    rewrite (IH _ _ (acc ++ d)%list), (IH _ _ d [(t, page)]). cbn [fst snd].
    now rewrite !List.app_assoc.
Qed.

(** The run's records are the records of the terms, one term after the
    other. *)
Lemma scrape_with_concat w max_pages terms (init0 : list job * list (string * nat)) :
  fst (fold_left (scrape_term w max_pages) terms init0) =
  (fst init0 ++ concat (map (term_records w max_pages) terms))%list.
Proof.
  revert init0. induction terms as [|t terms IH]; intros init0; cbn [fold_left map concat].
  - now rewrite app_nil_r.
  - rewrite IH. unfold scrape_term, term_records.
    rewrite page_loop_linear. cbn [fst]. now rewrite List.app_assoc.
Qed.

(** Every record of a term carries the term as its category. *)
Lemma term_records_category w max_pages t r :
  In r (term_records w max_pages t) -> Category r = t.
Proof.
  unfold term_records.
  intros [[] | (x & (page & status & cards & _ & _ & Hx) & _)]%page_loop_records.
  now apply extract_job_fields in Hx.
Qed.

Lemma records_of_app c jobs1 jobs2 :
  records_of c (jobs1 ++ jobs2) = records_of c jobs1 + records_of c jobs2.
Proof. unfold records_of. now rewrite List.filter_app, List.length_app. Qed.

Lemma records_of_all c jobs :
  (forall r, In r jobs -> Category r = c) -> records_of c jobs = length jobs.
Proof.
  unfold records_of. induction jobs as [|j jobs IH]; intros H; [reflexivity|].
  cbn [List.filter]. rewrite (H j (or_introl eq_refl)), String.eqb_refl.
  cbn [length]. f_equal. apply IH. intros r Hr. apply H. now right.
Qed.

Lemma records_of_none c jobs :
  (forall r, In r jobs -> Category r <> c) -> records_of c jobs = 0.
Proof.
  unfold records_of. induction jobs as [|j jobs IH]; intros H; [reflexivity|].
  cbn [List.filter].
  destruct (String.eqb_spec (Category j) c) as [E | _].
  - now apply (H j (or_introl eq_refl)) in E.
  - apply IH. intros r Hr. apply H. now right.
Qed.

Lemma records_of_terms w max_pages terms c :
  List.NoDup terms -> In c terms ->
  records_of c (concat (map (term_records w max_pages) terms)) =
  length (term_records w max_pages c).
Proof.
  induction terms as [|t terms IH]; intros Hnd Hin; [destruct Hin|].
  apply List.NoDup_cons_iff in Hnd as [Hnot Hnd].
  cbn [map concat]. rewrite records_of_app.
  destruct Hin as [-> | Hin].
  - rewrite records_of_all by (intros r Hr; now apply term_records_category in Hr).
    rewrite records_of_none; [lia|].
    intros r (l & (t' & <- & Ht')%in_map_iff & Hr)%in_concat.
    apply term_records_category in Hr. congruence.
  - rewrite IH by assumption. rewrite records_of_none; [lia|].
    intros r Hr. apply term_records_category in Hr. congruence.
Qed.

Lemma it_jobs_nodup : List.NoDup it_jobs.
Proof. unfold it_jobs. repeat constructor; cbn; intuition discriminate. Qed.

Lemma scrape_linkedin_jobs_concat w :
  scrape_linkedin_jobs w =
  concat (map (term_records w max_pages_per_category) it_jobs).
Proof. unfold scrape_linkedin_jobs, scrape_with. now rewrite scrape_with_concat. Qed.

Lemma count_category_lookup m j c :
  count_category m j !! c =
  if String.eqb (Category j) c then Some (default 0 (m !! c) + 1) else m !! c.
Proof.
  unfold count_category. destruct (String.eqb_spec (Category j) c) as [-> | Hne].
  - rewrite lookup_insert_eq. destruct (m !! c) eqn:E; [now rewrite E|].
    now rewrite lookup_insert_eq.
  - rewrite lookup_insert_ne by exact Hne.
    destruct (m !! Category j); [reflexivity|]. now rewrite lookup_insert_ne.
Qed.

Lemma count_categories_from jobs m c :
  fold_left count_category jobs m !! c = tally (m !! c) (records_of c jobs).
Proof.
  revert m. induction jobs as [|j jobs IH]; intros m.
  - cbn. now destruct (m !! c) as [k|]; cbn; rewrite ?Nat.add_0_r.
  - cbn [fold_left]. rewrite IH, count_category_lookup. unfold records_of.
    cbn [List.filter]. destruct (String.eqb (Category j) c); [|reflexivity].
    cbn [length]. destruct (m !! c) as [k|]; cbn; f_equal; lia.
Qed.

Lemma count_categories_lookup jobs c :
  count_categories jobs !! c =
  if (records_of c jobs =? 0)%nat then None else Some (records_of c jobs).
Proof.
  unfold count_categories. rewrite count_categories_from, lookup_empty.
  now destruct (records_of c jobs).
Qed.

(** C5, as amended: when the [try] block of the handler raises, the response
    is status 500 with the message; otherwise it is status 200 with
    [total_jobs] the number of records, [jobs_by_category] holding, for each
    category that has at least one record, the number of records its term
    produced, and no entry for a category with no record, together with the
    output file and the time; three terms of two records each give a total
    of 6 and 2 under each category. *)
Theorem lambda_handler_response w :
  let jobs := scrape_linkedin_jobs w in
  (forall msg, run w = Raised msg ->
     lambda_handler w = {| statusCode := 500; body := ErrorBody msg |}) /\
  (forall r, run w = Ok r ->
     lambda_handler w = r /\
     statusCode r = 200%Z /\
     exists output_file,
       body r = Summary (length jobs) (count_categories jobs) output_file
                  (now_text w)) /\
  (forall c, count_categories jobs !! c =
             if (records_of c jobs =? 0)%nat then None
             else Some (records_of c jobs)) /\
  (forall c, In c it_jobs ->
     records_of c jobs = length (term_records w max_pages_per_category c)) /\
  ((forall c, In c it_jobs ->
      length (term_records w max_pages_per_category c) = 2) ->
   length jobs = 6 /\
   forall c, In c it_jobs -> count_categories jobs !! c = Some 2).
Proof.
  intros jobs.
  assert (Hrec : forall c, In c it_jobs ->
            records_of c jobs = length (term_records w max_pages_per_category c)).
  { intros c Hc. subst jobs. rewrite scrape_linkedin_jobs_concat.
    apply records_of_terms; [apply it_jobs_nodup | exact Hc]. }
  split; [|split; [|split; [|split]]].
  - intros msg H. unfold lambda_handler. now rewrite H.
  - intros r H. split; [unfold lambda_handler; now rewrite H|].
    unfold run in H. apply bind_ok in H as (scraper & _ & H). fold jobs in H.
    destruct (save_to_s3 w jobs scraper) as [s3_path st1].
    destruct (save_to_postgres w jobs st1) as [saved st2].
    apply bind_ok in H as (_ & _ & H). injection H as <-.
    split; [reflexivity|]. now exists s3_path.
  - intros c. apply count_categories_lookup.
  - exact Hrec.
  - intros H2. split.
    + subst jobs. rewrite scrape_linkedin_jobs_concat. unfold it_jobs.
      cbn [map concat]. rewrite !List.length_app.
      rewrite !H2 by (unfold it_jobs; cbn; tauto). reflexivity.
    + intros c Hc. rewrite count_categories_lookup, (Hrec c Hc), (H2 c Hc).
      reflexivity.
Qed.

(** The [try] block raises only when an environment variable of the
    database configuration is missing or [save_to_postgres] raises. *)
Lemma run_raises w msg :
  run w = Raised msg ->
  init w = Raised msg \/
  exists scraper,
    init w = Ok scraper /\
    fst (save_to_postgres w (scrape_linkedin_jobs w)
           (snd (save_to_s3 w (scrape_linkedin_jobs w) scraper))) = Raised msg.
Proof.
  unfold run. destruct (init w) as [scraper|msg0]; cbn [bind].
  - intros H. right. exists scraper. split; [reflexivity|].
    destruct (save_to_s3 w (scrape_linkedin_jobs w) scraper) as [s3_path st1].
    cbn [snd].
    destruct (save_to_postgres w (scrape_linkedin_jobs w) st1) as [[u|m] st2];
      [discriminate | now injection H as ->].
  - intros [= ->]. now left.
Qed.

End Handler.

(** C3 as stated fails: with every page of a term holding one card that is
    two weeks old, the shipped loop asks for one page of the term, not two. *)
Lemma stale_term_one_page :
  let w := world_of (pages_of [old_card]) geo_down in
  stale_page w "Backend Developer" 0 /\
  stale_page w "Backend Developer" 1 /\
  term_requests w max_pages_per_category "Backend Developer" =
    [("Backend Developer", 0)] /\
  length (term_requests w max_pages_per_category "Backend Developer") <> 2.
Proof.
  intros w. repeat split.
  - exists [old_card]. split; [reflexivity | split; [discriminate | reflexivity]].
  - exists [old_card]. split; [reflexivity | split; [discriminate | reflexivity]].
  - vm_compute. discriminate.
Qed.

Lemma stale_term_stops_witness :
  let w := world_of (pages_of [old_card]) geo_down in
  page_loop w "Backend Developer" max_pages_per_category 0 0 [] [] =
    ([], [("Backend Developer", 0)]) /\
  page_loop w "Backend Developer" 2 0 0 [] [] =
    ([], [("Backend Developer", 0); ("Backend Developer", 1)]).
Proof.
  intros w.
  assert (Hs : forall page, stale_page w "Backend Developer" page).
  { intros page. exists [old_card]. split; [reflexivity | split; [discriminate | reflexivity]]. }
  destruct (stale_term_stops w "Backend Developer" [] [] (Hs 0) (Hs 1)) as [H1 H2].
  split; [exact H1 | apply H2; lia].
Defined.

(** C4 as stated fails: a card with no posted-date element is recorded
    although no posted-date text of it was ever accepted. *)
Lemma undated_card_emitted :
  let w := world_of (pages_of [undated_card]) geo_down in
  posted_date_el undated_card = None /\
  (forall t page, search_page w t page = FetchStatus 200 [undated_card]) /\
  exists r, In r (scrape_linkedin_jobs w) /\
            extract_job w "Backend Developer" undated_card = Ok r /\
            Posted_Date r = "Recently" /\
            is_recent_job (Posted_Date r) = false.
Proof.
  intros w. split; [reflexivity|]. split; [reflexivity|].
  eexists. split; [|split; [reflexivity | split; reflexivity]].
  vm_compute. left. reflexivity.
Qed.

Lemma emitted_records_recency_witness :
  let w := world_of (pages_of [fresh_card]) geo_down in
  In fresh_record (scrape_linkedin_jobs w) /\
  exists t c,
    In t it_jobs /\ extracted_from w t c fresh_record /\
    match posted_date_el c with
    | Some d => is_recent_job (strip d) = true /\ Posted_Date fresh_record = strip d
    | None => Posted_Date fresh_record = "Recently"
    end.
Proof.
  intros w.
  assert (Hin : In fresh_record (scrape_linkedin_jobs w)) by (left; reflexivity).
  split; [exact Hin | exact (emitted_records_recency w fresh_record Hin)].
Defined.


(** C2 as stated fails: when the request raises, the sentinel is returned
    but not stored, and a second call for the same location sends a second
    request. *)
Lemma failed_lookup_not_cached :
  let w := world_of search_down geo_down in
  let st1 := snd (get_coordinates w "Leeds" initial_state) in
  fst (get_coordinates w "Leeds" initial_state) = Ok (None, None) /\
  geocoding_cache st1 !! "Leeds" = None /\
  lookups st1 = ["Leeds"] /\
  lookups (snd (get_coordinates w "Leeds" st1)) = ["Leeds"; "Leeds"].
Proof. intros w st1. repeat split. Qed.

Lemma get_coordinates_failures_witness :
  let w := world_of search_down geo_empty in
  let st1 := snd (get_coordinates w "Leeds" initial_state) in
  let w2 := world_of search_down geo_half in
  let st2 := snd (get_coordinates w2 "Leeds" initial_state) in
  (fst (get_coordinates w "Leeds" initial_state) = Ok (None, None) /\
   geocoding_cache st1 !! "Leeds" = Some (None, None) /\
   get_coordinates (world_of search_down geo_down) "Leeds" st1
     = (Ok (None, None), st1)) /\
  (fst (get_coordinates w2 "Leeds" initial_state) = Ok (None, None) /\
   geocoding_cache st2 = geocoding_cache initial_state /\
   lookups (snd (get_coordinates w2 "Leeds" st2)) = ["Leeds"; "Leeds"]).
Proof.
  intros w st1 w2 st2. split.
  - destruct (get_coordinates_failures w "Leeds" initial_state)
      as (_ & Hneg & _).
    destruct (Hneg 200%Z (BodyResults [])) as (H1 & H2 & H3);
      [discriminate | reflexivity | reflexivity | now right |].
    split; [exact H1|]. split; [exact H2|]. apply H3.
  - destruct (get_coordinates_failures w2 "Leeds" initial_state)
      as (_ & _ & _ & Hparse & _).
    destruct (Hparse {| res_lat := Some 53.5%float; res_lon := None |} [])
      as (H1 & H2 & H3);
      [discriminate | reflexivity | reflexivity | now right |].
    split; [exact H1|]. split; [exact H2|]. apply H3.
Defined.

Lemma writers_share_cache_witness :
  let w := world_of (pages_of [fresh_card]) geo_empty in
  let jobs := scrape_linkedin_jobs w in
  let st1 := snd (save_to_s3 w jobs initial_state) in
  let st2 := snd (save_to_postgres w jobs st1) in
  geocoding_cache st1 !! "Leeds" = Some (None, None) /\
  geocoding_cache st2 !! "Leeds" = Some (None, None) /\
  exists extra, lookups st2 = (lookups st1 ++ extra)%list /\ ~ In "Leeds" extra.
Proof.
  intros w jobs st1 st2.
  assert (Hc : geocoding_cache st1 !! "Leeds" = Some (None, None)) by reflexivity.
  destruct (writers_share_cache w jobs initial_state "Leeds" (None, None) Hc)
    as (H2 & H3 & _).
  split; [exact Hc|]. split; [exact H2 | exact H3].
Defined.

(** C5 as stated fails: when no term yields a record the response is 200
    with an empty [jobs_by_category], so a category whose term produced no
    record is mapped to nothing, not to 0. *)
Lemma empty_run_has_no_categories :
  let w := world_of search_down geo_down in
  lambda_handler w =
    {| statusCode := 200;
       body := Summary 0 ∅ None "2024-01-15 09:30:00" |} /\
  term_records w max_pages_per_category "Backend Developer" = [] /\
  count_categories (scrape_linkedin_jobs w) !! "Backend Developer" = None /\
  count_categories (scrape_linkedin_jobs w) !! "Backend Developer" <> Some 0.
Proof. intros w. repeat split. discriminate. Qed.

Lemma lambda_handler_response_witness :
  let w := world_of (pages_of [fresh_card; undated_card]) geo_empty in
  statusCode (lambda_handler w) = 200%Z /\
  length (scrape_linkedin_jobs w) = 6 /\
  (forall c, In c it_jobs ->
     count_categories (scrape_linkedin_jobs w) !! c = Some 2) /\
  lambda_handler
    {| environ := ∅; now_text := ""; now_stamp := "";
       search_page := search_down; geocode := geo_down;
       s3_put := Ok tt; pg_connect := Ok tt; pg_schema := Ok tt;
       pg_insert := Ok tt; pg_rollback := Ok tt; pg_close := Ok tt |}
  = {| statusCode := 500; body := ErrorBody "'DB_NAME'" |}.
Proof.
  intros w.
  destruct (lambda_handler_response w) as (_ & Hok & _ & _ & Hsix).
  destruct (Hok (lambda_handler w)) as (_ & Hstatus & _); [reflexivity|].
  destruct Hsix as [Hlen Hcat].
  { intros c Hc. unfold it_jobs in Hc. cbn in Hc.
    destruct Hc as [<- | [<- | [<- | []]]]; reflexivity. }
  split; [exact Hstatus|]. split; [exact Hlen|]. split; [exact Hcat|].
  match goal with
  | |- lambda_handler ?w0 = _ =>
      destruct (lambda_handler_response w0) as (Herr & _)
  end.
  apply Herr. reflexivity.
Defined.

(** * Further properties of the classifiers *)

Section Classifiers.

Implicit Types (s t p r d : string).

Lemma lower_char_idempotent (c : ascii) : lower_char (lower_char c) = lower_char c.
Proof. destruct c as [[] [] [] [] [] [] [] []]; reflexivity. Qed.

Lemma lower_idempotent s : lower (lower s) = lower s.
Proof.
  induction s as [|c s IH]; [reflexivity|].
  cbn [lower]. now rewrite lower_char_idempotent, IH.
Qed.

Lemma occurs_in_padded w t p r : occurs_in w t -> occurs_in w (p +:+ t +:+ r).
Proof.
  intros (a & b & ->). exists (p +:+ a), (b +:+ r).
  now rewrite !string_app_assoc.
Qed.

Lemma any_in_padded words t p r :
  any_in words (lower t) = true -> any_in words (lower (p +:+ t +:+ r)) = true.
Proof.
  intros (w & Hin & Hw)%any_in_spec. apply any_in_spec. exists w.
  split; [exact Hin|]. rewrite !lower_app. now apply occurs_in_padded.
Qed.

(** X1: [is_remote] answers Hybrid whenever "hybrid" is in the lower-cased
    text, also next to "remote"; failing that it answers Remote when one of
    "remote", "work from home", "wfh" is in it; and On-site when none of the
    four keywords is. *)
Theorem is_remote_tiers d :
  (occurs_in "hybrid" (lower d) -> is_remote d = "Hybrid") /\
  (~ occurs_in "hybrid" (lower d) ->
   (exists w, In w ["remote"; "work from home"; "wfh"] /\ occurs_in w (lower d)) ->
   is_remote d = "Remote") /\
  ((forall w, In w remote_words -> ~ occurs_in w (lower d)) ->
   is_remote d = "On-site").
Proof.
  unfold is_remote. fold remote_words. split; [|split].
  - intros H. assert (any_in remote_words (lower d) = true) as ->.
    { apply any_in_spec. exists "hybrid". split; [cbn; tauto | exact H]. }
    apply contains_spec in H. now rewrite H.
  - intros Hh (w & Hin & Hw).
    assert (any_in remote_words (lower d) = true) as ->.
    { apply any_in_spec. exists w. split; [cbn in *; tauto | exact Hw]. }
    destruct (contains "hybrid" (lower d)) eqn:E; [|reflexivity].
    apply contains_spec in E. contradiction.
  - intros H%any_in_false. now rewrite H.
Qed.

Lemma is_remote_tiers_witness :
  is_remote "Hybrid or fully remote" = "Hybrid" /\
  is_remote "WFH three days a week" = "Remote" /\
  is_remote "Based in our Leeds office" = "On-site".
Proof.
  split; [|split].
  - apply (is_remote_tiers "Hybrid or fully remote").
    exists "", " or fully remote". reflexivity.
  - apply (is_remote_tiers "WFH three days a week").
    + intros H%contains_spec. discriminate.
    + exists "wfh". split; [cbn; tauto|]. exists "", " three days a week". reflexivity.
  - apply (is_remote_tiers "Based in our Leeds office").
    apply any_in_false. reflexivity.
Defined.

(** X2: [is_recent_job] is true exactly when the lower-cased text has one of
    the six phrases somewhere inside it; the test is containment, not
    equality. *)
Theorem is_recent_job_phrases t :
  is_recent_job t = true <->
  exists w, In w recent_phrases /\ occurs_in w (lower t).
Proof. rewrite is_recent_job_any_in. apply any_in_spec. Qed.

(** X3: the three classifiers do not look at letter case: lower-casing the
    text first changes none of their answers. *)
Theorem classifiers_ignore_case s :
  determine_experience_level (lower s) = determine_experience_level s /\
  is_remote (lower s) = is_remote s /\
  is_recent_job (lower s) = is_recent_job s.
Proof.
  unfold determine_experience_level, is_remote, is_recent_job.
  now rewrite lower_idempotent.
Qed.

(** X4: text around a match never takes the match away: a text that holds an
    accepted posted-date text is accepted, a description that holds a Senior
    Level description is Senior Level, and one that holds a Hybrid
    description is Hybrid. *)
Theorem classifiers_keep_match_when_padded t p r :
  (is_recent_job t = true -> is_recent_job (p +:+ t +:+ r) = true) /\
  (determine_experience_level t = "Senior Level" ->
   determine_experience_level (p +:+ t +:+ r) = "Senior Level") /\
  (is_remote t = "Hybrid" -> is_remote (p +:+ t +:+ r) = "Hybrid").
Proof.
  split; [|split].
  - rewrite !is_recent_job_any_in. apply any_in_padded.
  - unfold determine_experience_level.
    destruct (any_in senior_words (lower t)) eqn:E.
    + intros _. now rewrite (any_in_padded _ _ p r E).
    + destruct (any_in entry_words (lower t)); discriminate.
  - unfold is_remote. fold remote_words.
    destruct (any_in remote_words (lower t)) eqn:E; [|discriminate].
    destruct (contains "hybrid" (lower t)) eqn:Eh; [|discriminate].
    intros _. rewrite (any_in_padded _ _ p r E).
    assert (contains "hybrid" (lower (p +:+ t +:+ r)) = true) as ->; [|reflexivity].
    apply contains_spec. rewrite !lower_app. apply occurs_in_padded.
    now apply contains_spec.
Qed.

Lemma classifiers_keep_match_when_padded_witness :
  is_recent_job ("Posted " +:+ "2 days ago" +:+ " by the recruiter") = true /\
  determine_experience_level ("Junior or " +:+ "senior" +:+ " engineers") = "Senior Level" /\
  is_remote ("Remote or " +:+ "hybrid" +:+ " working") = "Hybrid".
Proof.
  split; [|split].
  - apply (classifiers_keep_match_when_padded "2 days ago"). reflexivity.
  - apply (classifiers_keep_match_when_padded "senior"). reflexivity.
  - apply (classifiers_keep_match_when_padded "hybrid"). reflexivity.
Defined.

(** A text with no comma, no " Area" at its end and no "Greater " in it is
    left as it is. *)
Lemma clean_location_keeps_plain s :
  contains "," s = false ->
  ends_with " Area" s = false ->
  ends_with (" Area" +:+ line_break) s = false ->
  contains "Greater " s = false ->
  clean_location s = s.
Proof.
  intros Hc H1 H2 H3. unfold clean_location.
  rewrite (re_sub_end_no_comma "," " England, United Kingdom" s);
    [| reflexivity | exact Hc].
  rewrite (re_sub_end_no_comma "," " United Kingdom" s);
    [| reflexivity | exact Hc].
  rewrite (re_sub_end_no_comma "," " UK" s); [| reflexivity | exact Hc].
  rewrite (re_sub_end_no_comma " " "Area, United Kingdom" s);
    [| reflexivity | exact Hc].
  rewrite (re_sub_end_other " " "Area" s H1 H2), (re_sub_lit_absent _ _ H3).
  now rewrite Hc.
Qed.

(** X5: [clean_location] never returns a text with a comma in it. *)
Theorem clean_location_has_no_comma s : ~ occurs_in "," (clean_location s).
Proof.
  intros H%contains_spec. now rewrite clean_location_no_comma in H.
Qed.

(** X6: [clean_location] only deletes: its result is never longer than its
    argument. *)
Theorem clean_location_not_longer s :
  String.length (clean_location s) <= String.length s.
Proof.
  unfold clean_location.
  set (z1 := re_sub (LitEnd ", England, United Kingdom") s).
  set (z2 := re_sub (LitEnd ", United Kingdom") z1).
  set (z3 := re_sub (LitEnd ", UK") z2).
  set (z4 := re_sub (LitEnd " Area, United Kingdom") z3).
  set (z5 := re_sub (LitEnd " Area") z4).
  set (z6 := re_sub (Lit "Greater ") z5).
  assert (String.length z1 <= String.length s) by apply re_sub_length.
  assert (String.length z2 <= String.length z1) by apply re_sub_length.
  assert (String.length z3 <= String.length z2) by apply re_sub_length.
  assert (String.length z4 <= String.length z3) by apply re_sub_length.
  assert (String.length z5 <= String.length z4) by apply re_sub_length.
  assert (String.length z6 <= String.length z5) by apply re_sub_length.
  destruct (contains "," z6); [|lia].
  unfold strip.
  pose proof (rstrip_length (lstrip (split_head comma z6))).
  pose proof (lstrip_length (split_head comma z6)).
  pose proof (split_head_length comma z6). lia.
Qed.

(** X7: the texts [clean_location] leaves unchanged are exactly those with
    no comma, no " Area" at the end (before a final line break or not) and no
    "Greater " inside. *)
Theorem clean_location_fixed_points s :
  clean_location s = s <->
  contains "," s = false /\
  ends_with " Area" s = false /\
  ends_with (" Area" +:+ line_break) s = false /\
  contains "Greater " s = false.
Proof.
  split.
  - intros Hfix.
    assert (Hc : contains "," s = false).
    { rewrite <- Hfix. apply clean_location_no_comma. }
    split; [exact Hc|].
    assert (Hidem : clean_location (clean_location s) = clean_location s)
      by now rewrite !Hfix.
    apply clean_location_idempotent_only_when_settled in Hidem.
    now rewrite Hfix in Hidem.
  - intros (Hc & H1 & H2 & H3). now apply clean_location_keeps_plain.
Qed.

End Classifiers.

(** * Further properties of the scraping loops *)

Section ScrapingMore.

Variable w : world.

Implicit Types (c : card) (r : job) (cards : list card)
  (acc : list job) (reqs : list (string * nat)) (t : string).

Lemma scan_card_collects t st c :
  scan_card w t st c =
  (fst st || passes_recency c, (snd st ++ card_records w t c)%list).
Proof.
  unfold scan_card, card_records. destruct st as [b acc]. cbn [fst snd].
  destruct (passes_recency c); cbn [negb].
  - rewrite orb_true_r. destruct (extract_job w t c); [reflexivity|].
    now rewrite app_nil_r.
  - now rewrite orb_false_r, app_nil_r.
Qed.

Lemma scan_cards_collects_from t cards st :
  fold_left (scan_card w t) cards st =
  (fst st || existsb passes_recency cards,
   (snd st ++ page_records w t cards)%list).
Proof.
  revert st. induction cards as [|c cards IH]; intros [b acc]; cbn [fold_left].
  - cbn. now rewrite orb_false_r, app_nil_r.
  - rewrite IH, scan_card_collects. cbn [fst snd existsb page_records flat_map].
    now rewrite orb_assoc, <- List.app_assoc.
Qed.

(** X8: the card loop appends, in page order, one record for each card that
    gets past the recency check and whose extraction succeeds; a card that
    fails either way is skipped and the cards after it are still handled.
    The flag it returns says whether some card got past the check. *)
Theorem scan_cards_collects t cards acc :
  scan_cards w t cards acc =
  (existsb passes_recency cards, (acc ++ page_records w t cards)%list).
Proof. unfold scan_cards. now rewrite scan_cards_collects_from. Qed.

Lemma page_loop_one t page k acc reqs :
  page_loop w t 1 page k acc reqs =
  (match search_page w t page with
   | FetchStatus status_code cards =>
       if (status_code =? 200)%Z then (acc ++ page_records w t cards)%list
       else acc
   | FetchRaises _ => acc
   end, (reqs ++ [(t, page)])%list).
Proof.
  cbn [page_loop]. destruct (search_page w t page) as [msg|status cards];
    [reflexivity|].
  destruct (status =? 200)%Z; cbn [negb]; [|reflexivity].
  destruct cards as [|c cards]; [cbn; now rewrite app_nil_r|].
  unfold scan_cards. rewrite scan_cards_collects_from. cbn [fst snd orb].
  destruct (existsb passes_recency (c :: cards)); cbn [negb]; [reflexivity|].
  now destruct (2 <=? S k)%nat.
Qed.

(** X9: with the cap of one page per term that the code ships with, the
    records of a run are, term after term in the order of [it_jobs], the
    records of page 0 of the term, and nothing when that page did not come
    back with status 200. *)
Theorem scrape_linkedin_jobs_first_pages :
  scrape_linkedin_jobs w = concat (map (first_page_records w) it_jobs).
Proof.
  rewrite scrape_linkedin_jobs_concat. f_equal. apply map_ext. intros t.
  unfold term_records, max_pages_per_category, first_page_records.
  rewrite page_loop_one. cbn [fst].
  destruct (search_page w t 0) as [msg|status cards]; [reflexivity|].
  now destruct (status =? 200)%Z.
Qed.

Lemma scrape_with_requests_one terms (init0 : list job * list (string * nat)) :
  snd (fold_left (scrape_term w 1) terms init0) =
  (snd init0 ++ map (fun t => (t, 0)) terms)%list.
Proof.
  revert init0. induction terms as [|t terms IH]; intros init0; cbn [fold_left map].
  - now rewrite app_nil_r.
  - rewrite IH. unfold scrape_term. rewrite page_loop_one. cbn [snd].
    now rewrite <- List.app_assoc.
Qed.

(** X10: whatever the site answers, a run as shipped asks for exactly three
    result pages: page 0 of each term, in the order of [it_jobs]. *)
Theorem scrape_requests_first_pages :
  snd (scrape_with w max_pages_per_category it_jobs) =
  [("Backend Developer", 0); ("Frontend Developer", 0);
   ("Machine Learning Engineer", 0)].
Proof. unfold scrape_with. now rewrite scrape_with_requests_one. Qed.

Lemma page_loop_requests t budget page k acc reqs :
  exists m,
    snd (page_loop w t budget page k acc reqs) =
      (reqs ++ map (pair t) (seq page m))%list /\
    m <= budget /\ (0 < budget -> 0 < m).
Proof.
  revert page k acc reqs.
  induction budget as [|budget IH]; intros page k acc reqs.
  { exists 0. cbn. rewrite app_nil_r. repeat split; lia. }
  assert (Hstop : forall acc',
            exists m, ((reqs ++ [(t, page)])%list : list (string * nat)) =
                      (reqs ++ map (pair t) (seq page m))%list /\
                      m <= S budget /\ (0 < S budget -> 0 < m)).
  { intros _. exists 1. cbn. repeat split; lia. }
  assert (Hgo : forall k' acc',
            exists m, snd (page_loop w t budget (S page) k' acc'
                             (reqs ++ [(t, page)])) =
                      (reqs ++ map (pair t) (seq page m))%list /\
                      m <= S budget /\ (0 < S budget -> 0 < m)).
  { intros k' acc'. destruct (IH (S page) k' acc' (reqs ++ [(t, page)])%list)
      as (m & Hm & Hle & _).
    exists (S m). rewrite Hm. cbn [seq map]. rewrite <- List.app_assoc.
    repeat split; lia. }
  cbn [page_loop].
  destruct (search_page w t page) as [msg|status cards]; [now apply Hstop|].
  destruct (negb (status =? 200)%Z); [now apply Hstop|].
  destruct cards as [|c cards]; [now apply Hstop|].
  destruct (scan_cards w t (c :: cards) acc) as [found acc'].
  destruct found; cbn [negb]; [apply Hgo|].
  destruct (2 <=? S k)%nat; [now apply Hstop | apply Hgo].
Qed.

(** X11: under any cap, a term asks for pages 0, 1, 2, ... in that order with
    no gap and no repeat, never for more pages than the cap, and for at least
    one when the cap is not 0. *)
Theorem term_requests_within_cap max_pages t :
  exists m,
    term_requests w max_pages t = map (pair t) (seq 0 m) /\
    m <= max_pages /\ (0 < max_pages -> 0 < m).
Proof.
  unfold term_requests.
  destruct (page_loop_requests t max_pages 0 0 [] []) as (m & Hm & Hb).
  exists m. split; [exact Hm | exact Hb].
Qed.

(** X12: when the first page of a term cannot be fetched, comes back with a
    status other than 200, or holds no card, the term ends there under any
    cap: it adds no record and page 0 is the only page asked for. *)
Theorem first_page_failure_ends_term max_pages t :
  first_page_fails w t ->
  term_records w (S max_pages) t = [] /\
  term_requests w (S max_pages) t = [(t, 0)].
Proof.
  unfold first_page_fails, term_records, term_requests. cbn [page_loop].
  destruct (search_page w t 0) as [msg|status cards]; [now intros _|].
  intros [Hs | ->].
  - apply Z.eqb_neq in Hs. now rewrite Hs.
  - now destruct (negb (status =? 200)%Z).
Qed.

Lemma page_loop_runs t budget :
  forall page k acc reqs,
  (forall i, page <= i < page + budget -> page_has_cards w t i) ->
  (forall i, page <= i -> S i < page + budget ->
             fresh_page w t i \/ fresh_page w t (S i)) ->
  k = 0 \/ (k = 1 /\ (0 < budget -> fresh_page w t page)) ->
  snd (page_loop w t budget page k acc reqs) =
  (reqs ++ map (pair t) (seq page budget))%list.
Proof.
  induction budget as [|budget IH]; intros page k acc reqs Hcards Halt Hk.
  { cbn. now rewrite app_nil_r. }
  cbn [page_loop seq map].
  destruct (Hcards page ltac:(lia)) as (cards & Hf & Hne).
  rewrite Hf. change (200 =? 200)%Z with true. cbn [negb].
  destruct cards as [|c cards]; [congruence|].
  unfold scan_cards. rewrite scan_cards_collects_from. cbn [fst snd orb].
  assert (Hnext : forall k' acc',
            k' = 0 \/ (k' = 1 /\ (0 < budget -> fresh_page w t (S page))) ->
            snd (page_loop w t budget (S page) k' acc' (reqs ++ [(t, page)])) =
            (reqs ++ (t, page) :: map (pair t) (seq (S page) budget))%list).
  { intros k' acc' Hk'. rewrite IH; [now rewrite <- List.app_assoc | | | exact Hk'].
    - intros i Hi. apply Hcards. lia.
    - intros i Hi1 Hi2. apply Halt; lia. }
  destruct (existsb passes_recency (c :: cards)) eqn:Hp; cbn [negb].
  - apply Hnext. now left.
  - assert (k = 0) as ->.
    { destruct Hk as [-> | [_ Hfresh]]; [reflexivity|].
      destruct (Hfresh ltac:(lia)) as (cards' & Hf' & Hp').
      rewrite Hf in Hf'. injection Hf' as <-. congruence. }
    cbn [Nat.leb]. apply Hnext. right. split; [reflexivity|]. intros Hb.
    destruct (Halt page ltac:(lia) ltac:(lia)) as [(cards' & Hf' & Hp') | H];
      [|exact H].
    rewrite Hf in Hf'. injection Hf' as <-. congruence.
Qed.

(** X13: under a cap of [max_pages], a term whose first [max_pages] pages all
    come back with cards, and never two in a row without a card past the
    recency check, is followed to the cap: a single stale page between fresh
    ones does not end it. *)
Theorem term_runs_to_cap max_pages t :
  (forall i, i < max_pages -> page_has_cards w t i) ->
  (forall i, S i < max_pages -> fresh_page w t i \/ fresh_page w t (S i)) ->
  term_requests w max_pages t = map (pair t) (seq 0 max_pages).
Proof.
  intros Hcards Halt. unfold term_requests.
  rewrite page_loop_runs; [reflexivity | | | now left].
  - intros i Hi. apply Hcards. lia.
  - intros i _ Hi. apply Halt. lia.
Qed.

(** What a successful extraction puts in the other fields. *)
Lemma extract_job_values t c r :
  extract_job w t c = Ok r ->
  In (Experience_Level r) level_values /\
  In (Work_Type r) work_values /\
  contains "," (Location r) = false /\
  Date_Scraped r = strftime (reading (scraped_at c)).
Proof.
  unfold extract_job. intros H.
  repeat (apply bind_ok in H as (? & _ & H)).
  injection H as <-. cbn [Experience_Level Work_Type Location Date_Scraped].
  split; [|split; [|split]].
  - unfold determine_experience_level, level_values.
    destruct (any_in senior_words _); [cbn; tauto|].
    destruct (any_in entry_words _); cbn; tauto.
  - unfold is_remote, work_values.
    destruct (any_in _ _); [|cbn; tauto].
    destruct (contains "hybrid" _); cbn; tauto.
  - apply clean_location_no_comma.
  - reflexivity.
Qed.

(** X14: every record of a run carries one of the three search terms as its
    category, one of the three experience levels, one of the three work
    types, a location with no comma in it, a 'Date Scraped' that [strptime]
    reads back as a valid date and time, and a posted-date text that is
    "Recently" or is accepted by [is_recent_job]. *)
Theorem emitted_records_well_formed r :
  In r (scrape_linkedin_jobs w) ->
  In (Category r) it_jobs /\
  In (Experience_Level r) level_values /\
  In (Work_Type r) work_values /\
  ~ occurs_in "," (Location r) /\
  (exists dt, strptime (Date_Scraped r) = Ok dt /\ valid_datetime dt = true) /\
  (Posted_Date r = "Recently" \/ is_recent_job (Posted_Date r) = true).
Proof.
  unfold scrape_linkedin_jobs, scrape_with.
  intros [[] | (t & c & Ht & (page & status & cards & _ & _ & Hx) & Hp)]%scrape_with_records.
  pose proof (extract_job_fields w t c r Hx) as [Hcat Hdate].
  pose proof (extract_job_values t c r Hx) as (Hl & Hw & Hloc & Hnow).
  split; [now rewrite Hcat|]. split; [exact Hl|]. split; [exact Hw|].
  split; [intros H%contains_spec; congruence|]. split.
  - exists (reading (scraped_at c)). rewrite Hnow.
    split; [apply strptime_reading | apply reading_valid].
  - rewrite Hdate. unfold passes_recency in Hp.
    destruct (posted_date_el c); [now right | now left].
Qed.

(** The 'Date Scraped' of every record of a run is accepted by
    [strptime]. *)
Lemma scraped_stamps_parse r :
  In r (scrape_linkedin_jobs w) -> stamp_parses r = true.
Proof.
  unfold scrape_linkedin_jobs, scrape_with.
  intros [[] | (t & c & Ht & (page & status & cards & _ & _ & Hx) & Hp)]%scrape_with_records.
  apply extract_job_values in Hx as (_ & _ & _ & Hnow).
  unfold stamp_parses. now rewrite Hnow, strptime_reading.
Qed.

End ScrapingMore.

Lemma first_page_failure_ends_term_witness :
  let w := world_of search_down geo_down in
  term_records w 3 "Backend Developer" = [] /\
  term_requests w 3 "Backend Developer" = [("Backend Developer", 0)].
Proof.
  intros w. apply (first_page_failure_ends_term w 2 "Backend Developer").
  left. discriminate.
Defined.

Lemma term_runs_to_cap_witness :
  let w := world_of (fun _ page => FetchStatus 200
                       [if Nat.even page then old_card else fresh_card])
             geo_down in
  term_requests w 4 "Backend Developer" =
  [("Backend Developer", 0); ("Backend Developer", 1);
   ("Backend Developer", 2); ("Backend Developer", 3)].
Proof.
  intros w. apply (term_runs_to_cap w 4 "Backend Developer").
  - intros i _. eexists. split; [reflexivity | discriminate].
  - intros i Hi. destruct i as [|[|[|i]]]; [right | left | right | lia];
      (eexists; split; reflexivity).
Defined.

Lemma emitted_records_well_formed_witness :
  let w := world_of (pages_of [fresh_card]) geo_down in
  In (Category fresh_record) it_jobs /\
  In (Experience_Level fresh_record) level_values /\
  In (Work_Type fresh_record) work_values /\
  ~ occurs_in "," (Location fresh_record) /\
  (exists dt, strptime (Date_Scraped fresh_record) = Ok dt /\
              valid_datetime dt = true) /\
  (Posted_Date fresh_record = "Recently" \/
   is_recent_job (Posted_Date fresh_record) = true).
Proof.
  intros w. apply (emitted_records_well_formed w fresh_record).
  left. reflexivity.
Defined.

(** * Further properties of the geocoding cache *)

Section GeocodingMore.

Implicit Types (st : geo_state) (location loc : string) (v : coords)
  (jobs : list job).


(** What one call does to the state, by cases. *)
Lemma get_coordinates_cases w location st :
  let res := get_coordinates w location st in
  (snd res = st /\
   (location = "" /\ fst res = Ok (None, None) \/
    exists v, geocoding_cache st !! location = Some v /\ fst res = Ok v)) \/
  (location <> "" /\ geocoding_cache st !! location = None /\
   (snd res = record_lookup location st /\ fst res = Ok (None, None) \/
    exists v, snd res = store location v (record_lookup location st) /\
              fst res = Ok v /\ whole v = true)).
Proof.
  unfold get_coordinates. destruct (String.eqb_spec location "") as [-> | Hne].
  { left. split; [reflexivity | now left]. }
  destruct (geocoding_cache st !! location) as [v|] eqn:Hc.
  { left. split; [reflexivity | right; now exists v]. }
  right. split; [exact Hne|]. split; [reflexivity|].
  unfold lookup_block.
  destruct (geocode w _ _) as [msg|code [msg|[|r rs]]]; try (now left);
    destruct (code =? 200)%Z; try (now left);
    try (right; exists (None, None); now repeat split).
  unfold parse_coords.
  destruct (res_lat r), (res_lon r); cbn [bind]; try (now left).
  right. eexists. now repeat split.
Qed.

Lemma geocode_jobs_ok w jobs st :
  exists rows, fst (geocode_jobs w jobs st) = Ok rows /\ map fst rows = jobs.
Proof.
  revert st. induction jobs as [|j jobs IH]; intros st; [now exists []|].
  cbn [geocode_jobs].
  destruct (get_coordinates_never_raises w (Location j) st) as [c Hc].
  destruct (get_coordinates w (Location j) st) as [res st1].
  cbn [fst] in Hc. subst res.
  destruct (IH st1) as (rows & Hrows & Hmap).
  destruct (geocode_jobs w jobs st1) as [res st2]. cbn [fst] in Hrows. subst res.
  exists ((j, c) :: rows). cbn. now rewrite Hmap.
Qed.

Lemma geocode_jobs_cons w j jobs st :
  geocode_jobs w (j :: jobs) st =
  let '(res, st1) := get_coordinates w (Location j) st in
  let '(rest, st2) := geocode_jobs w jobs st1 in
  match res, rest with
  | Ok c, Ok rows => (Ok ((j, c) :: rows), st2)
  | Ok _, Raised msg => (Raised msg, st2)
  | Raised msg, _ => (Raised msg, st1)
  end.
Proof.
  cbn [geocode_jobs].
  destruct (get_coordinates_never_raises w (Location j) st) as [c Hc].
  destruct (get_coordinates w (Location j) st) as [res st1].
  cbn [fst] in Hc. subst res.
  now destruct (geocode_jobs w jobs st1) as [[rows|msg] st2].
Qed.


(** X16: on a miss that the service answers with status 200 and a first
    result holding both coordinates, [get_coordinates] returns them and
    stores them, and every later call for that location returns them again
    with no request, whatever the service would say by then. *)
Theorem get_coordinates_success w location st r rs lat lon :
  location <> "" -> geocoding_cache st !! location = None ->
  geocode w (length (lookups st)) (location +:+ country_suffix)
    = LookupResponse 200 (BodyResults (r :: rs)) ->
  res_lat r = Some lat -> res_lon r = Some lon ->
  let st' := snd (get_coordinates w location st) in
  fst (get_coordinates w location st) = Ok (Some lat, Some lon) /\
  lookups st' = (lookups st ++ [location])%list /\
  forall w', get_coordinates w' location st' = (Ok (Some lat, Some lon), st').
Proof.
  intros Hne Hc Hg Hlat Hlon.
  assert (Hgo : get_coordinates w location st =
                (Ok (Some lat, Some lon),
                 store location (Some lat, Some lon) (record_lookup location st))).
  { unfold get_coordinates, lookup_block, parse_coords.
    now rewrite (empty_eqb _ Hne), Hc, Hg, Hlat, Hlon. }
  rewrite Hgo. cbn [fst snd]. split; [reflexivity|]. split; [reflexivity|].
  intros w'. apply get_coordinates_hit; [exact Hne | apply lookup_insert_eq].
Qed.

(** X17: when the first result lacks a readable latitude or longitude, the
    sentinel is returned, the request is counted and the cache is left as it
    was, so the location is not remembered as looked up. *)
Theorem get_coordinates_unreadable w location st r rs :
  location <> "" -> geocoding_cache st !! location = None ->
  geocode w (length (lookups st)) (location +:+ country_suffix)
    = LookupResponse 200 (BodyResults (r :: rs)) ->
  res_lat r = None \/ res_lon r = None ->
  get_coordinates w location st =
    (Ok (None, None),
     {| geocoding_cache := geocoding_cache st;
        lookups := (lookups st ++ [location])%list |}).
Proof.
  intros Hne Hc Hg Hbad.
  unfold get_coordinates, lookup_block, parse_coords.
  rewrite (empty_eqb _ Hne), Hc, Hg. change (200 =? 200)%Z with true.
  destruct Hbad as [-> | ->]; [reflexivity|]. now destruct (res_lat r).
Qed.

(** X18: the cache never holds half a pair.  If every entry has both
    coordinates or neither, then so has every entry after a writer's pass,
    and so has the pair the pass gives to each record. *)
Theorem coordinates_stay_whole w jobs st :
  (forall loc v, geocoding_cache st !! loc = Some v -> whole v = true) ->
  (forall loc v, geocoding_cache (snd (geocode_jobs w jobs st)) !! loc = Some v ->
                 whole v = true) /\
  (forall rows j c, fst (geocode_jobs w jobs st) = Ok rows -> In (j, c) rows ->
                    whole c = true).
Proof.
  revert st. induction jobs as [|j jobs IH]; intros st Hst.
  { split; [exact Hst | intros rows j c [= <-] []]. }
  rewrite geocode_jobs_cons.
  pose proof (get_coordinates_cases w (Location j) st) as Hcases.
  destruct (get_coordinates w (Location j) st) as [res st1].
  cbn [fst snd] in Hcases.
  assert (Hst1 : (forall loc v, geocoding_cache st1 !! loc = Some v -> whole v = true)
                 /\ (forall c, res = Ok c -> whole c = true)).
  { destruct Hcases as [[-> [[_ ->] | (v & Hv & ->)]]
                       | (_ & _ & [[-> ->] | (v & -> & -> & Hw)])].
    - split; [exact Hst | now intros c [= <-]].
    - split; [exact Hst|]. intros c [= <-]. eauto.
    - split; [exact Hst | now intros c [= <-]].
    - split; [|now intros c [= <-]]. cbn. intros loc v'.
      rewrite lookup_insert. destruct (decide (Location j = loc)); [|apply Hst].
      now intros [= <-]. }
  destruct Hst1 as [Hst1 Hres].
  specialize (IH st1 Hst1) as [IH1 IH2].
  destruct (geocode_jobs w jobs st1) as [rest st2]. cbn [fst snd] in IH1, IH2.
  destruct res as [c0|msg]; [|split; [exact Hst1 | intros ? ? ? [=]]].
  destruct rest as [rows|msg]; cbn [fst snd]; (split; [exact IH1|]).
  - intros rows' j' c [= <-] [[= <- <-] | Hin]; [now apply Hres | eauto].
  - intros ? ? ? [=].
Qed.

Lemma get_coordinates_lookups w location st :
  length (lookups (snd (get_coordinates w location st))) <= S (length (lookups st)).
Proof.
  destruct (get_coordinates_cases w location st)
    as [[-> _] | (_ & _ & [[-> _] | (v & -> & _)])];
    cbn; rewrite ?List.length_app; cbn; lia.
Qed.

Lemma geocode_jobs_lookups w jobs st :
  length (lookups (snd (geocode_jobs w jobs st)))
    <= length (lookups st) + length jobs.
Proof.
  revert st. induction jobs as [|j jobs IH]; intros st; [cbn; lia|].
  rewrite geocode_jobs_cons.
  pose proof (get_coordinates_lookups w (Location j) st) as H1.
  destruct (get_coordinates w (Location j) st) as [res st1]. cbn [snd] in H1.
  specialize (IH st1).
  destruct (geocode_jobs w jobs st1) as [rest st2]. cbn [snd] in IH.
  destruct res as [c|msg]; [destruct rest|]; cbn [snd length]; lia.
Qed.

Lemma job_data_lookups w jobs st :
  length (lookups (snd (job_data w jobs st)))
    <= length (lookups st) + length jobs.
Proof.
  revert st. induction jobs as [|j jobs IH]; intros st; [cbn; lia|].
  rewrite job_data_cons.
  pose proof (get_coordinates_lookups w (Location j) st) as H1.
  destruct (get_coordinates w (Location j) st) as [res st1]. cbn [snd] in H1.
  specialize (IH st1).
  destruct res as [c|msg]; [|cbn [snd length]; lia].
  destruct (strptime (Date_Scraped j)); [|cbn [snd length]; lia].
  destruct (job_data w jobs st1) as [rest st2]. cbn [snd] in IH.
  destruct rest; cbn [snd length]; lia.
Qed.

(** The loop of [save_to_postgres] goes through exactly when [strptime]
    accepts the 'Date Scraped' of every record. *)
Lemma job_data_result w jobs st :
  if forallb stamp_parses jobs
  then exists rows, fst (job_data w jobs st) = Ok rows /\
                    map (fun row => fst (fst row)) rows = jobs
  else exists msg, fst (job_data w jobs st) = Raised msg.
Proof.
  revert st. induction jobs as [|j jobs IH]; intros st; [now exists []|].
  rewrite job_data_cons. cbn [forallb]. unfold stamp_parses at 1.
  destruct (get_coordinates_never_raises w (Location j) st) as [c Hc].
  destruct (get_coordinates w (Location j) st) as [res st1].
  cbn [fst] in Hc. subst res.
  destruct (strptime (Date_Scraped j)) as [t|msg]; cbn [andb];
    [|now exists msg].
  specialize (IH st1). destruct (forallb stamp_parses jobs).
  - destruct IH as (rows & Hrows & Hmap).
    destruct (job_data w jobs st1) as [rest st2]. cbn [fst] in Hrows. subst rest.
    exists ((j, c, t) :: rows). cbn. now rewrite Hmap.
  - destruct IH as (msg & Hmsg).
    destruct (job_data w jobs st1) as [rest st2]. cbn [fst] in Hmsg. subst rest.
    now exists msg.
Qed.

(** X19: the enrichment loop of [save_to_s3] never raises and gives one row
    for each record, in the order of the records.  The loop of
    [save_to_postgres] does the same when [strptime] accepts the 'Date
    Scraped' of every record, and raises when it rejects one.  Neither
    sends more than one request for each record. *)
Theorem writer_loops_rows w jobs st :
  (exists rows, fst (geocode_jobs w jobs st) = Ok rows /\ map fst rows = jobs) /\
  length (lookups (snd (geocode_jobs w jobs st)))
    <= length (lookups st) + length jobs /\
  (forallb stamp_parses jobs = true ->
   exists rows, fst (job_data w jobs st) = Ok rows /\
                map (fun row => fst (fst row)) rows = jobs) /\
  (forallb stamp_parses jobs = false ->
   exists msg, fst (job_data w jobs st) = Raised msg) /\
  length (lookups (snd (job_data w jobs st)))
    <= length (lookups st) + length jobs.
Proof.
  pose proof (job_data_result w jobs st) as Hjd.
  split; [apply geocode_jobs_ok|]. split; [apply geocode_jobs_lookups|].
  split; [|split; [|apply job_data_lookups]].
  - intros Hp. now rewrite Hp in Hjd.
  - intros Hp. now rewrite Hp in Hjd.
Qed.






End GeocodingMore.


Lemma get_coordinates_success_witness :
  let w := world_of search_down geo_leeds in
  let st' := snd (get_coordinates w "Leeds" initial_state) in
  fst (get_coordinates w "Leeds" initial_state)
    = Ok (Some 53.5%float, Some (-1.5)%float) /\
  lookups st' = ["Leeds"] /\
  get_coordinates (world_of search_down geo_down) "Leeds" st'
    = (Ok (Some 53.5%float, Some (-1.5)%float), st').
Proof.
  intros w st'.
  destruct (get_coordinates_success w "Leeds" initial_state
              {| res_lat := Some 53.5%float; res_lon := Some (-1.5)%float |} []
              53.5%float (-1.5)%float) as (H1 & H2 & H3);
    [discriminate | reflexivity | reflexivity | reflexivity | reflexivity |].
  split; [exact H1|]. split; [exact H2 | apply H3].
Defined.

Lemma get_coordinates_unreadable_witness :
  get_coordinates (world_of search_down geo_half) "Leeds" initial_state =
    (Ok (None, None), {| geocoding_cache := ∅; lookups := ["Leeds"] |}).
Proof.
  apply (get_coordinates_unreadable (world_of search_down geo_half) "Leeds"
           initial_state {| res_lat := Some 53.5%float; res_lon := None |} []);
    [discriminate | reflexivity | reflexivity | now right].
Defined.

Lemma coordinates_stay_whole_witness :
  let w := world_of search_down geo_leeds in
  fst (geocode_jobs w [fresh_record] initial_state)
    = Ok [(fresh_record, (Some 53.5%float, Some (-1.5)%float))] /\
  whole (Some 53.5%float, Some (-1.5)%float) = true.
Proof.
  intros w. split; [reflexivity|].
  apply (coordinates_stay_whole w [fresh_record] initial_state)
    with (rows := [(fresh_record, (Some 53.5%float, Some (-1.5)%float))])
         (j := fresh_record);
    [| reflexivity | now left].
  intros loc v H. unfold initial_state in H. cbn [geocoding_cache] in H.
  rewrite lookup_empty in H. discriminate.
Defined.


(** * Further properties of the writers and the handler *)

Section HandlerMore.

Implicit Types (w : world) (jobs : list job) (st : geo_state)
  (m : gmap string nat).

Lemma upload_result w path :
  upload w = Ok path <->
  s3_put w = Ok tt /\
  exists bucket_name,
    environ w !! "S3_BUCKET_NAME" = Some bucket_name /\
    path = s3_path_of w bucket_name.
Proof.
  unfold upload, getenv, s3_path_of.
  destruct (environ w !! "S3_BUCKET_NAME") as [b|]; cbn [bind].
  - destruct (s3_put w) as [[]|msg]; cbn [bind].
    + split.
      * intros [= <-]. split; [reflexivity | now exists b].
      * intros (_ & b' & [= <-] & ->). reflexivity.
    + split; [discriminate | intros [[=] _]].
  - split; [discriminate | intros (_ & b & [=] & _)].
Qed.

(** X21: [save_to_s3] returns a path exactly when there is at least one
    record, the bucket name is configured and the upload does not raise, and
    the path is then the bucket and a key built from the time of the run; in
    every other case it returns [None] and does not raise. *)
Theorem save_to_s3_result w jobs st path :
  fst (save_to_s3 w jobs st) = Some path <->
  jobs <> [] /\ s3_put w = Ok tt /\
  exists bucket_name,
    environ w !! "S3_BUCKET_NAME" = Some bucket_name /\
    path = s3_path_of w bucket_name.
Proof.
  unfold save_to_s3. destruct jobs as [|j jobs].
  { split; [discriminate | intros [H _]; congruence]. }
  destruct (geocode_jobs_ok w (j :: jobs) st) as (rows & Hrows & _).
  destruct (geocode_jobs w (j :: jobs) st) as [res st1]. cbn [fst] in Hrows.
  subst res. pose proof (upload_result w path) as Hup.
  destruct (upload w) as [p'|msg]; cbn [fst].
  - split.
    + intros [= ->]. split; [discriminate | now apply Hup].
    + intros [_ H]. apply Hup in H. congruence.
  - split; [discriminate|]. intros [_ H]. apply Hup in H. discriminate.
Qed.

(** X22: [save_to_postgres] raises only through its clean-up: it raises
    exactly when there is a record to save, the connection was made, and
    either [close] raises, or the rollback raises after the work failed: at
    the schema, at a 'Date Scraped' that [strptime] rejects, or at the
    insert.  A failed connection, and a failure that is rolled back and
    closed, both return normally. *)
#[local] Set Warnings "-clear-no-such-hyp".

Theorem save_to_postgres_raises w jobs st msg :
  fst (save_to_postgres w jobs st) = Raised msg <->
  jobs <> [] /\ pg_connect w = Ok tt /\
  (pg_close w = Raised msg \/
   pg_close w = Ok tt /\ pg_rollback w = Raised msg /\
   ((exists e, pg_schema w = Raised e) \/
    pg_schema w = Ok tt /\
    (forallb stamp_parses jobs = false \/ exists e, pg_insert w = Raised e))).
Proof.
  unfold save_to_postgres, finally_close. destruct jobs as [|j jobs].
  { split; [discriminate | intros [H _]; congruence]. }
  pose proof (job_data_result w (j :: jobs) st) as Hjd.
  destruct (pg_connect w) as [[]|mc]; cbn [fst];
    [|split; [discriminate | intros (_ & [=] & _)]].
  destruct (forallb stamp_parses (j :: jobs)).
  - destruct Hjd as (rows & Hrows & _).
    destruct (job_data w (j :: jobs) st) as [res st1]. cbn [fst] in Hrows.
    subst res.
    destruct (pg_schema w) as [[]|ms], (pg_insert w) as [[]|mi],
      (pg_close w) as [[]|mx], (pg_rollback w) as [[]|mr]; cbn [fst];
      naive_solver.
  - destruct Hjd as (e & He).
    destruct (job_data w (j :: jobs) st) as [res st1]. cbn [fst] in He.
    subst res.
    destruct (pg_schema w) as [[]|ms], (pg_insert w) as [[]|mi],
      (pg_close w) as [[]|mx], (pg_rollback w) as [[]|mr]; cbn [fst];
      naive_solver.
Qed.

Lemma init_ok_state w st : init w = Ok st -> st = initial_state.
Proof.
  unfold init. intros H.
  repeat (apply bind_ok in H as (? & _ & H)). now injection H.
Qed.

Lemma init_ok w :
  (forall key, In key db_keys -> is_Some (environ w !! key)) ->
  init w = Ok initial_state.
Proof.
  intros H. unfold init, getenv.
  destruct (H "DB_NAME") as [v1 ->]; [cbn; tauto|].
  destruct (H "DB_USER") as [v2 ->]; [cbn; tauto|].
  destruct (H "DB_PASSWORD") as [v3 ->]; [cbn; tauto|].
  destruct (H "DB_HOST") as [v4 ->]; [cbn; tauto|].
  destruct (H "DB_PORT") as [v5 ->]; [cbn; tauto|].
  reflexivity.
Qed.

(** X23: constructing the scraper succeeds exactly when the five database
    variables are set; otherwise it raises with the quoted name of the first
    one, in reading order, that is missing.  The bucket name is not among
    them. *)
Theorem init_needs_db_variables w :
  (init w = Ok initial_state <->
   forall key, In key db_keys -> is_Some (environ w !! key)) /\
  (forall msg, init w = Raised msg ->
     exists before key after,
       db_keys = (before ++ key :: after)%list /\
       (forall k, In k before -> is_Some (environ w !! k)) /\
       environ w !! key = None /\
       msg = "'" +:+ key +:+ "'") /\
  ~ In "S3_BUCKET_NAME" db_keys.
Proof.
  assert (Hnot : ~ In "S3_BUCKET_NAME" db_keys) by (cbn; intuition discriminate).
  cut ((init w = Ok initial_state <->
        forall key, In key db_keys -> is_Some (environ w !! key)) /\
       (forall msg, init w = Raised msg ->
          exists before key after,
            db_keys = (before ++ key :: after)%list /\
            (forall k, In k before -> is_Some (environ w !! k)) /\
            environ w !! key = None /\
            msg = "'" +:+ key +:+ "'")).
  { intros [H1 H2]. split; [exact H1 | split; [exact H2 | exact Hnot]]. }
  clear Hnot.
  unfold init, getenv, db_keys.
  destruct (environ w !! "DB_NAME") as [v1|] eqn:E1; cbn [bind].
  2:{ split.
      - split; [discriminate|]. intros H.
        destruct (H "DB_NAME") as [v Hv]; [cbn; tauto | congruence].
      - intros msg [= <-]. exists [], "DB_NAME", (tl db_keys).
        repeat split; auto. intros k []. }
  destruct (environ w !! "DB_USER") as [v2|] eqn:E2; cbn [bind].
  2:{ split.
      - split; [discriminate|]. intros H.
        destruct (H "DB_USER") as [v Hv]; [cbn; tauto | congruence].
      - intros msg [= <-]. exists ["DB_NAME"], "DB_USER", (tl (tl db_keys)).
        repeat split; auto. intros k [<- | []]. eauto. }
  destruct (environ w !! "DB_PASSWORD") as [v3|] eqn:E3; cbn [bind].
  2:{ split.
      - split; [discriminate|]. intros H.
        destruct (H "DB_PASSWORD") as [v Hv]; [cbn; tauto | congruence].
      - intros msg [= <-].
        exists ["DB_NAME"; "DB_USER"], "DB_PASSWORD", ["DB_HOST"; "DB_PORT"].
        repeat split; auto. intros k [<- | [<- | []]]; eauto. }
  destruct (environ w !! "DB_HOST") as [v4|] eqn:E4; cbn [bind].
  2:{ split.
      - split; [discriminate|]. intros H.
        destruct (H "DB_HOST") as [v Hv]; [cbn; tauto | congruence].
      - intros msg [= <-].
        exists ["DB_NAME"; "DB_USER"; "DB_PASSWORD"], "DB_HOST", ["DB_PORT"].
        repeat split; auto. intros k [<- | [<- | [<- | []]]]; eauto. }
  destruct (environ w !! "DB_PORT") as [v5|] eqn:E5; cbn [bind].
  2:{ split.
      - split; [discriminate|]. intros H.
        destruct (H "DB_PORT") as [v Hv]; [cbn; tauto | congruence].
      - intros msg [= <-].
        exists ["DB_NAME"; "DB_USER"; "DB_PASSWORD"; "DB_HOST"], "DB_PORT", [].
        repeat split; auto. intros k [<- | [<- | [<- | [<- | []]]]]; eauto. }
  split; [|discriminate]. split; [|reflexivity].
  intros _ key [<- | [<- | [<- | [<- | [<- | []]]]]]; eauto.
Qed.

Lemma run_result w :
  run w =
  match init w with
  | Raised msg => Raised msg
  | Ok scraper =>
      let jobs := scrape_linkedin_jobs w in
      let st1 := snd (save_to_s3 w jobs scraper) in
      match fst (save_to_postgres w jobs st1) with
      | Raised msg => Raised msg
      | Ok _ =>
          Ok {| statusCode := 200;
                body := Summary (length jobs) (count_categories jobs)
                          (fst (save_to_s3 w jobs scraper)) (now_text w) |}
      end
  end.
Proof.
  unfold run. destruct (init w) as [scraper|msg]; cbn [bind]; [|reflexivity].
  destruct (save_to_s3 w (scrape_linkedin_jobs w) scraper) as [s3_path st1].
  cbn [fst snd].
  now destruct (save_to_postgres w (scrape_linkedin_jobs w) st1) as [[u|msg] st2].
Qed.

(** X24: the handler answers 500 exactly when a database variable is missing
    or [save_to_postgres] raises, with that error's text as the message, and
    200 otherwise.  What the search site, the geocoding service and the
    upload do has no part in it. *)
Theorem handler_status w :
  let jobs := scrape_linkedin_jobs w in
  let st1 := snd (save_to_s3 w jobs initial_state) in
  (forall msg,
     lambda_handler w = {| statusCode := 500; body := ErrorBody msg |} <->
     init w = Raised msg \/
     init w = Ok initial_state /\
     fst (save_to_postgres w jobs st1) = Raised msg) /\
  (statusCode (lambda_handler w) = 200%Z <->
   init w = Ok initial_state /\
   exists u, fst (save_to_postgres w jobs st1) = Ok u).
Proof.
  intros jobs st1. unfold lambda_handler. rewrite run_result.
  pose proof (init_ok_state w) as Hst.
  destruct (init w) as [scraper|m0].
  - rewrite (Hst scraper eq_refl) in *. cbn zeta. fold jobs st1.
    destruct (fst (save_to_postgres w jobs st1)) as [u|m1]; split.
    + intros msg. split; [discriminate|]. intros [H | [_ H]]; discriminate.
    + split; [intros _; split; [reflexivity | now exists u] | reflexivity].
    + intros msg. split.
      * intros [= ->]. now right.
      * intros [H | [_ H]]; [discriminate | now injection H as ->].
    + cbn. split; [discriminate | intros [_ [u H]]; discriminate].
  - split.
    + intros msg. split.
      * intros [= ->]. now left.
      * intros [H | [H _]]; [now injection H as -> | discriminate].
    + cbn. split; [discriminate | intros [H _]; discriminate].
Qed.

Lemma save_to_s3_upload_fails w jobs st msg :
  upload w = Raised msg -> fst (save_to_s3 w jobs st) = None.
Proof.
  intros Hup. unfold save_to_s3. destruct jobs as [|j jobs]; [reflexivity|].
  destruct (geocode_jobs w (j :: jobs) st) as [[rows|e] st1]; [|reflexivity].
  now rewrite Hup.
Qed.

Lemma save_to_postgres_all_ok w jobs st :
  forallb stamp_parses jobs = true ->
  pg_connect w = Ok tt -> pg_schema w = Ok tt -> pg_insert w = Ok tt ->
  pg_close w = Ok tt ->
  fst (save_to_postgres w jobs st) = Ok tt.
Proof.
  intros Hp Hc Hs Hi Hx. unfold save_to_postgres, finally_close.
  destruct jobs as [|j jobs]; [reflexivity|]. rewrite Hc, Hs, Hi, Hx.
  pose proof (job_data_result w (j :: jobs) st) as Hjd. rewrite Hp in Hjd.
  destruct Hjd as (rows & Hrows & _).
  destruct (job_data w (j :: jobs) st) as [res st1]. cbn [fst] in Hrows.
  now subst res.
Qed.

Lemma scraped_stamps_all_parse w :
  forallb stamp_parses (scrape_linkedin_jobs w) = true.
Proof. apply forallb_forall. intros r Hr. now apply (scraped_stamps_parse w). Qed.

(** X25: a failed upload does not fail the run: with the database variables
    set and the database calls succeeding, a run whose upload raises, or
    whose bucket name is not configured, still answers 200 with the full
    count and with no output file. *)
Theorem handler_survives_upload_failure w msg :
  (forall key, In key db_keys -> is_Some (environ w !! key)) ->
  pg_connect w = Ok tt -> pg_schema w = Ok tt -> pg_insert w = Ok tt ->
  pg_close w = Ok tt ->
  upload w = Raised msg ->
  lambda_handler w =
  {| statusCode := 200;
     body := Summary (length (scrape_linkedin_jobs w))
               (count_categories (scrape_linkedin_jobs w)) None (now_text w) |}.
Proof.
  intros Henv Hc Hs Hi Hx Hup. unfold lambda_handler. rewrite run_result.
  rewrite (init_ok w Henv). cbn zeta.
  rewrite (save_to_postgres_all_ok w _ _ (scraped_stamps_all_parse w) Hc Hs Hi Hx).
  now rewrite (save_to_s3_upload_fails w _ _ msg Hup).
Qed.

(** X26: a database failure does not fail the run either, as long as the
    rollback and the two [close] calls go through: whatever [connect], the
    schema set-up and the insert do, the answer is 200. *)
Theorem handler_survives_database_failure w :
  (forall key, In key db_keys -> is_Some (environ w !! key)) ->
  pg_rollback w = Ok tt -> pg_close w = Ok tt ->
  statusCode (lambda_handler w) = 200%Z.
Proof.
  intros Henv Hr Hx. unfold lambda_handler. rewrite run_result.
  rewrite (init_ok w Henv). cbn zeta.
  set (jobs := scrape_linkedin_jobs w).
  set (st1 := snd (save_to_s3 w jobs initial_state)).
  assert (Hok : exists u, fst (save_to_postgres w jobs st1) = Ok u).
  { unfold save_to_postgres, finally_close. rewrite Hr, Hx.
    destruct jobs as [|j jobs']; [now exists tt|].
    destruct (pg_connect w); [|now exists tt].
    destruct (pg_schema w); [|now exists tt].
    destruct (job_data w (j :: jobs') st1) as [[rows|e] st2];
      [|now exists tt].
    destruct (pg_insert w); now exists tt. }
  destruct Hok as [u ->]. reflexivity.
Qed.

(** X27: a run that finds no record touches neither store: with the database
    variables set it answers 200 with a total of 0, no category and no output
    file, whatever the upload and the database calls would have done. *)
Theorem handler_empty_run w :
  (forall key, In key db_keys -> is_Some (environ w !! key)) ->
  scrape_linkedin_jobs w = [] ->
  lambda_handler w =
  {| statusCode := 200; body := Summary 0 ∅ None (now_text w) |}.
Proof.
  intros Henv Hjobs. unfold lambda_handler. rewrite run_result.
  rewrite (init_ok w Henv), Hjobs. reflexivity.
Qed.

Lemma sum_counts_fresh m c n :
  m !! c = None -> sum_counts (<[c := n]> m) = n + sum_counts m.
Proof.
  intros H. unfold sum_counts. rewrite map_fold_insert_L; [reflexivity | | exact H].
  intros. lia.
Qed.

Lemma sum_counts_present m c k n :
  m !! c = Some k -> sum_counts (<[c := n]> m) + k = n + sum_counts m.
Proof.
  intros H. rewrite <- (insert_delete_eq m c n).
  rewrite sum_counts_fresh by apply lookup_delete_eq.
  unfold sum_counts at 2. rewrite (map_fold_delete_L _ _ c k m); [|intros; lia | exact H].
  fold (sum_counts (delete c m)). lia.
Qed.

Lemma sum_counts_step m j : sum_counts (count_category m j) = S (sum_counts m).
Proof.
  unfold count_category. destruct (m !! Category j) as [k|] eqn:E.
  - rewrite E. cbn [default from_option id].
    pose proof (sum_counts_present m (Category j) k (k + 1) E). lia.
  - rewrite lookup_insert_eq. cbn. rewrite insert_insert_eq.
    now rewrite sum_counts_fresh.
Qed.

(** X28: the counts under [jobs_by_category] add up to [total_jobs]: every
    record is counted under exactly one category. *)
Theorem summary_counts_add_up jobs :
  sum_counts (count_categories jobs) = length jobs.
Proof.
  unfold count_categories.
  assert (H : forall m, sum_counts (fold_left count_category jobs m)
                        = sum_counts m + length jobs).
  { induction jobs as [|j jobs IH]; intros m; cbn [fold_left length]; [lia|].
    rewrite IH, sum_counts_step. lia. }
  rewrite H. unfold sum_counts. now rewrite map_fold_empty.
Qed.

(** X29: the categories of the summary of a run are search terms, and none
    is listed with a count of 0. *)
Theorem summary_categories_are_terms w c n :
  count_categories (scrape_linkedin_jobs w) !! c = Some n ->
  In c it_jobs /\ 0 < n.
Proof.
  rewrite count_categories_lookup.
  destruct (records_of c (scrape_linkedin_jobs w)) as [|k] eqn:E; [discriminate|].
  intros [= <-]. split; [|lia].
  unfold records_of in E.
  destruct (List.filter _ (scrape_linkedin_jobs w)) as [|r rs] eqn:F; [discriminate|].
  assert (Hr : In r (List.filter
                       (fun j => String.eqb (Category j) c)
                       (scrape_linkedin_jobs w))) by (rewrite F; now left).
  apply List.filter_In in Hr as [Hin Hc]. apply String.eqb_eq in Hc. subst c.
  rewrite scrape_linkedin_jobs_concat in Hin.
  apply in_concat in Hin as (l & (t & <- & Ht)%in_map_iff & Hr).
  apply term_records_category in Hr. now rewrite Hr.
Qed.

End HandlerMore.

Lemma save_to_s3_result_witness :
  let w := world_of search_down geo_empty in
  fst (save_to_s3 w [fresh_record] initial_state)
    = Some "s3://job-bucket/linkedin_recent_it_jobs_20240115_093000.csv".
Proof.
  intros w.
  apply (save_to_s3_result w [fresh_record] initial_state).
  split; [discriminate|]. split; [reflexivity|].
  exists "job-bucket". split; reflexivity.
Defined.

Lemma save_to_postgres_raises_witness :
  let w := failing_rollback (world_of search_down geo_empty) in
  fst (save_to_postgres w [fresh_record; misdated_record] initial_state)
    = Raised "connection already closed" /\
  fst (save_to_postgres (broken_database w) [fresh_record] initial_state)
    = Raised "connection already closed".
Proof.
  intros w. split.
  - apply (save_to_postgres_raises w [fresh_record; misdated_record] initial_state).
    split; [discriminate|]. split; [reflexivity|]. right.
    split; [reflexivity|]. split; [reflexivity|]. right.
    split; [reflexivity|]. left. reflexivity.
  - apply (save_to_postgres_raises (broken_database w) [fresh_record] initial_state).
    split; [discriminate|]. split; [reflexivity|]. right.
    split; [reflexivity|]. split; [reflexivity|]. right.
    split; [reflexivity|]. right. now exists "connection lost".
Defined.

Lemma init_needs_db_variables_witness :
  let w := no_password (world_of search_down geo_empty) in
  exists before key after,
    db_keys = (before ++ key :: after)%list /\
    (forall k, In k before -> is_Some (environ w !! k)) /\
    environ w !! key = None /\
    "'DB_PASSWORD'" = "'" +:+ key +:+ "'".
Proof.
  intros w.
  destruct (init_needs_db_variables w) as (_ & Hmsg & _).
  apply Hmsg. reflexivity.
Defined.

Lemma handler_status_witness :
  let w := broken_database (world_of (pages_of [fresh_card]) geo_empty) in
  lambda_handler w =
  {| statusCode := 500; body := ErrorBody "connection already closed" |}.
Proof.
  intros w. apply (handler_status w). right. split; reflexivity.
Defined.

Lemma handler_survives_upload_failure_witness :
  let w := failed_upload (world_of (pages_of [fresh_card]) geo_empty) in
  lambda_handler w =
  {| statusCode := 200;
     body := Summary (length (scrape_linkedin_jobs w))
               (count_categories (scrape_linkedin_jobs w)) None (now_text w) |}.
Proof.
  intros w. apply (handler_survives_upload_failure w "access denied");
    try reflexivity.
  intros key Hkey. cbn in Hkey.
  destruct Hkey as [<- | [<- | [<- | [<- | [<- | []]]]]]; eexists; reflexivity.
Defined.

Lemma handler_survives_database_failure_witness :
  let w := failed_insert (world_of (pages_of [fresh_card]) geo_empty) in
  statusCode (lambda_handler w) = 200%Z.
Proof.
  intros w. apply (handler_survives_database_failure w); try reflexivity.
  intros key Hkey. cbn in Hkey.
  destruct Hkey as [<- | [<- | [<- | [<- | [<- | []]]]]]; eexists; reflexivity.
Defined.

Lemma handler_empty_run_witness :
  let w := broken_database (world_of search_down geo_down) in
  lambda_handler w =
  {| statusCode := 200; body := Summary 0 ∅ None (now_text w) |}.
Proof.
  intros w. apply (handler_empty_run w); [|reflexivity].
  intros key Hkey. cbn in Hkey.
  destruct Hkey as [<- | [<- | [<- | [<- | [<- | []]]]]]; eexists; reflexivity.
Defined.

Lemma summary_categories_are_terms_witness :
  let w := world_of (pages_of [fresh_card; old_card]) geo_empty in
  In "Frontend Developer" it_jobs /\ 0 < 1.
Proof.
  intros w. apply (summary_categories_are_terms w "Frontend Developer" 1).
  reflexivity.
Defined.

Lemma writer_loops_rows_witness :
  let w := world_of search_down geo_empty in
  (exists rows,
     fst (job_data w [fresh_record] initial_state) = Ok rows /\
     map (fun row => fst (fst row)) rows = [fresh_record]) /\
  (exists msg,
     fst (job_data w [fresh_record; misdated_record] initial_state) = Raised msg).
Proof.
  intros w. split.
  - apply (writer_loops_rows w [fresh_record] initial_state). reflexivity.
  - apply (writer_loops_rows w [fresh_record; misdated_record] initial_state).
    reflexivity.
Defined.
